(** * Reservoir sampling service: session store, identifier allocator and
      request handlers.

    A shallow embedding of [service/reservoir/state.go], [service/api] and the
    begin handler and jobs of [service/server], with the properties that the
    specification states about them. *)

From Stdlib Require Import ZArith Lia List NArith.
From stdpp Require Import base option list gmap strings.

Local Open Scope Z_scope.

(** ** Go machine integers

    [int] is the 64-bit signed type of the usual targets and [uint64] the
    64-bit unsigned one. Both wrap silently on overflow. *)

Module GoInt.

Definition max_int : Z := 2 ^ 63 - 1.
Definition min_int : Z := - 2 ^ 63.
Definition max_uint64 : Z := 2 ^ 64 - 1.

(** Two's-complement reduction of an integer to [int]. *)
Definition wrap_int (z : Z) : Z := (z + 2 ^ 63) mod 2 ^ 64 - 2 ^ 63.

(** Reduction of an integer to [uint64]. *)
Definition wrap_uint64 (z : Z) : Z := z mod 2 ^ 64.

(** [len] of a slice. *)
Definition len {A : Type} (l : list A) : Z := Z.of_nat (length l).

End GoInt.

Import GoInt.

(** ** [sync.RWMutex]

    The mutex word: whether a writer holds it, and how many readers do. The
    zero value is the free mutex. A mutex is a value type in Go: assigning it,
    or reading it out of a map, copies the word. *)

Module sync.

Record RWMutex : Type := mkRWMutex { writer : bool; readers : nat }.

Definition zero : RWMutex := mkRWMutex false 0.

(** What one call does to the word. [None]: the caller has to wait (for
    [Lock]/[RLock]), or the runtime aborts ([Unlock]/[RUnlock] of a mutex that
    is not held). *)
Definition Lock (m : RWMutex) : option RWMutex :=
  match m with
  | mkRWMutex false O => Some (mkRWMutex true 0)
  | _ => None
  end.

Definition Unlock (m : RWMutex) : option RWMutex :=
  match m with
  | mkRWMutex true r => Some (mkRWMutex false r)
  | _ => None
  end.

Definition RLock (m : RWMutex) : option RWMutex :=
  match m with
  | mkRWMutex false r => Some (mkRWMutex false (S r))
  | _ => None
  end.

Definition RUnlock (m : RWMutex) : option RWMutex :=
  match m with
  | mkRWMutex w (S r) => Some (mkRWMutex w r)
  | _ => None
  end.

End sync.

(** ** Package [reservoir]: the session store (state.go) *)

Module reservoir.

(** [type Reservoir struct]. *)
Record Reservoir : Type := mkReservoir {
  data : list Z;  (* the K current integers in the reservoir *)
  k : Z;          (* initial value of K *)
  n : Z           (* increasing value of N *)
}.

(** [type ReservoirState struct]. [sessionToReservoir] holds pointers, one
    fresh [Reservoir] object per creation, so an entry of the map stands for
    the object it points to: a write through the pointer is a write to the
    entry. [sessionToSessionLock] holds mutexes by value. *)
Record ReservoirState : Type := mkReservoirState {
  sessionToReservoir : gmap Z Reservoir;
  sessionToReservoirLock : sync.RWMutex;
  sessionToSessionLock : gmap Z sync.RWMutex;
  sessionToSessionLockLock : sync.RWMutex;
  nextSessionID : Z
}.

Definition set_sessionToReservoir (f : gmap Z Reservoir -> gmap Z Reservoir)
    (s : ReservoirState) : ReservoirState :=
  mkReservoirState (f (sessionToReservoir s)) (sessionToReservoirLock s)
    (sessionToSessionLock s) (sessionToSessionLockLock s) (nextSessionID s).

Definition set_sessionToReservoirLock (m : sync.RWMutex)
    (s : ReservoirState) : ReservoirState :=
  mkReservoirState (sessionToReservoir s) m
    (sessionToSessionLock s) (sessionToSessionLockLock s) (nextSessionID s).

Definition set_sessionToSessionLock (f : gmap Z sync.RWMutex -> gmap Z sync.RWMutex)
    (s : ReservoirState) : ReservoirState :=
  mkReservoirState (sessionToReservoir s) (sessionToReservoirLock s)
    (f (sessionToSessionLock s)) (sessionToSessionLockLock s) (nextSessionID s).

Definition set_sessionToSessionLockLock (m : sync.RWMutex)
    (s : ReservoirState) : ReservoirState :=
  mkReservoirState (sessionToReservoir s) (sessionToReservoirLock s)
    (sessionToSessionLock s) m (nextSessionID s).

Definition set_nextSessionID (v : Z) (s : ReservoirState) : ReservoirState :=
  mkReservoirState (sessionToReservoir s) (sessionToReservoirLock s)
    (sessionToSessionLock s) (sessionToSessionLockLock s) v.

(** The [error] values of the package: [nil], or the one built by
    [fmt.Errorf("Session ID %v not found.", sessionID)]. *)
Inductive error : Type :=
  | nil_error
  | NotFound (sessionID : Z).

(** *** Sequential runs

    A call that runs alone on the singleton state either returns a value and
    leaves a state, or panics (the process dies: nothing is left to observe),
    or waits for ever on a mutex nobody will release. *)
Inductive outcome (A : Type) : Type :=
  | Returns (a : A) (s : ReservoirState)
  | Panics
  | Blocks.
Arguments Returns {A} a s.
Arguments Panics {A}.
Arguments Blocks {A}.

Definition M (A : Type) : Type := ReservoirState -> outcome A.

Definition ret {A} (a : A) : M A := fun s => Returns a s.

Definition bind {A B} (m : M A) (f : A -> M B) : M B :=
  fun s => match m s with
           | Returns a s' => f a s'
           | Panics => Panics
           | Blocks => Blocks
           end.

Definition get : M ReservoirState := fun s => Returns s s.
Definition modify (f : ReservoirState -> ReservoirState) : M unit :=
  fun s => Returns tt (f s).
Definition panic {A} : M A := fun _ => Panics.
Definition block {A} : M A := fun _ => Blocks.

#[global] Instance M_ret : MRet M := @ret.
#[global] Instance M_bind : MBind M := fun A B f m => bind m f.

(** A mutex operation on a field of the state ([proj]/[upd]): waits for ever
    when [op] cannot proceed and [wait] is set, aborts otherwise. *)
Definition on_mutex (wait : bool) (op : sync.RWMutex -> option sync.RWMutex)
    (proj : ReservoirState -> sync.RWMutex)
    (upd : sync.RWMutex -> ReservoirState -> ReservoirState) : M unit :=
  fun s => match op (proj s) with
           | Some m => Returns tt (upd m s)
           | None => if wait then Blocks else Panics
           end.

(** The same on a mutex held in a local variable. *)
Definition on_local (wait : bool) (op : sync.RWMutex -> option sync.RWMutex)
    (m : sync.RWMutex) : M sync.RWMutex :=
  match op m with
  | Some m' => ret m'
  | None => if wait then block else panic
  end.

(** [NewReservoirState]: both maps empty, the next identifier is 1. The
    singleton [Instance()] is this state, built once; every method works on
    it whatever its receiver. *)
Definition NewReservoirState : ReservoirState :=
  let initialSessionID := 1 in
  mkReservoirState ∅ sync.zero ∅ sync.zero initialSessionID.

(** [AtomicGetSessionIDAndIncrement], run alone: [atomic.LoadUint64] then
    [atomic.AddUint64(_, 1)]. *)
Definition AtomicGetSessionIDAndIncrement : M Z :=
  state ← get;
  let sessionID := nextSessionID state in
  modify (fun state => set_nextSessionID (wrap_uint64 (nextSessionID state + 1)) state);;
  ret sessionID.

(** [AtomicCreateReservoir]. The slice is stored as it is, not copied: the
    elements of [data] are those of the caller's backing array. Here each
    session has its elements to itself, which is what the handlers give it
    (a slice decoded afresh from each request); what is stated below about
    the data of a session is about that session under its own updates. *)
Definition AtomicCreateReservoir (reservoir : list Z) : M Z :=
  let res := mkReservoir reservoir (len reservoir) (len reservoir) in
  sessionID ← AtomicGetSessionIDAndIncrement;
  on_mutex true sync.Lock sessionToReservoirLock set_sessionToReservoirLock;;
  modify (set_sessionToReservoir (fun m => <[sessionID := res]> m));;
  on_mutex true sync.Lock sessionToSessionLockLock set_sessionToSessionLockLock;;
  modify (set_sessionToSessionLock (fun m => <[sessionID := sync.zero]> m));;
  on_mutex false sync.Unlock sessionToSessionLockLock set_sessionToSessionLockLock;;
  on_mutex false sync.Unlock sessionToReservoirLock set_sessionToReservoirLock;;
  ret sessionID.

(** [rand.Intn(n)]: panics when [n <= 0]; otherwise it takes a variate from
    the generator and returns its remainder modulo [n] (the generator
    rejects the top of its range, so that the variate is uniform over a
    multiple of [n] and the remainder is uniform over [[0, n)]). [draw] is
    the variate of this call. *)
Definition Intn (draw : Z) (n : Z) : M Z :=
  if n <=? 0 then panic else ret (draw mod n).



(** [reservoir.data[i] = v]: a run-time panic when [i] is out of range. *)
Definition store_index (l : list Z) (i : Z) (v : Z) : option (list Z) :=
  if (0 <=? i) && (i <? len l) then Some (<[Z.to_nat i := v]> l) else None.

(** A write through the pointer [sessionToReservoir[sessionID]]. *)
Definition write_reservoir (sessionID : Z) (r : Reservoir) : M unit :=
  modify (set_sessionToReservoir (fun m => <[sessionID := r]> m)).

(** [AtomicUpdateReservoir]. [draw] is the variate [rand.Intn] takes from
    the generator in this call. *)
Definition AtomicUpdateReservoir (draw : Z) (sessionID integerToAdd : Z) : M error :=
  state ← get;
  match sessionToSessionLock state !! sessionID with
  | None => ret (NotFound sessionID)
  | Some reservoirLock =>
    reservoirLock ← on_local true sync.Lock reservoirLock;
    on_mutex true sync.RLock sessionToReservoirLock set_sessionToReservoirLock;;
    state ← get;
    let reservoir := sessionToReservoir state !! sessionID in
    on_mutex false sync.RUnlock sessionToReservoirLock set_sessionToReservoirLock;;
    match reservoir with
    | None => panic  (* nil pointer dereference *)
    | Some r =>
      let r := mkReservoir (data r) (k r) (wrap_int (n r + 1)) in
      write_reservoir sessionID r;;
      randomIndex ← Intn draw (n r);
      (if randomIndex <? k r then
         match store_index (data r) randomIndex integerToAdd with
         | Some d => write_reservoir sessionID (mkReservoir d (k r) (n r))
         | None => panic  (* index out of range *)
         end
       else ret tt);;
      _ ← on_local false sync.Unlock reservoirLock;
      ret nil_error
    end
  end.

(** [AtomicEndReservoirSession]. The [nil] slice of the error return is the
    empty list. *)
Definition AtomicEndReservoirSession (sessionID : Z) : M (list Z * error) :=
  state ← get;
  match sessionToSessionLock state !! sessionID with
  | None => ret ([], NotFound sessionID)
  | Some reservoirLock =>
    reservoirLock ← on_local true sync.Lock reservoirLock;
    on_mutex true sync.Lock sessionToReservoirLock set_sessionToReservoirLock;;
    state ← get;
    match sessionToReservoir state !! sessionID with
    | None => panic  (* nil pointer dereference *)
    | Some reservoir =>
      let data := data reservoir in
      modify (set_sessionToReservoir (fun m => delete sessionID m));;
      on_mutex false sync.Unlock sessionToReservoirLock set_sessionToReservoirLock;;
      _ ← on_local false sync.Unlock reservoirLock;
      on_mutex true sync.Lock sessionToSessionLockLock set_sessionToSessionLockLock;;
      modify (set_sessionToSessionLock (fun m => delete sessionID m));;
      on_mutex false sync.Unlock sessionToSessionLockLock set_sessionToSessionLockLock;;
      ret (data, nil_error)
    end
  end.

End reservoir.

Import reservoir.

(** ** Package [api] *)

Module api.

Definition BeginSession (initialReservoir : list Z) : M (Z * error) :=
  sessionID ← AtomicCreateReservoir initialReservoir;
  mret (sessionID, nil_error).

Definition AddInteger (draw : Z) (sessionID integerToAdd : Z) : M error :=
  AtomicUpdateReservoir draw sessionID integerToAdd.

Definition EndSession (sessionID : Z) : M (list Z * error) :=
  AtomicEndReservoirSession sessionID.

End api.

(** ** [net/http]: what a handler does to its [ResponseWriter] *)

Module http.

Definition StatusOK : Z := 200.
Definition StatusBadRequest : Z := 400.
Definition StatusNotFound : Z := 404.
Definition StatusInternalServerError : Z := 500.

(** What is written to a response body: a line of text, the text of an
    [error], or the JSON encoding of one of the two response structures. *)
Inductive chunk : Type :=
  | Text (msg : string)
  | ErrorText (err : error)
  | JsonSessionID (SessionID : Z)
  | JsonSample (Sample : list Z).

(** The response so far: the status line once it is sent, and the body. *)
Record ResponseWriter : Type := mkResponseWriter {
  status : option Z;
  body : list chunk
}.

Definition fresh : ResponseWriter := mkResponseWriter None [].

(** [w.WriteHeader(code)]: only the first call sends the status line, a later
    one is superfluous and dropped. *)
Definition WriteHeader (code : Z) (w : ResponseWriter) : ResponseWriter :=
  match status w with
  | None => mkResponseWriter (Some code) (body w)
  | Some _ => w
  end.

(** [w.Write(b)]: sends [200 OK] first when no status line was sent. *)
Definition Write (c : chunk) (w : ResponseWriter) : ResponseWriter :=
  let w := WriteHeader StatusOK w in
  mkResponseWriter (status w) (body w ++ [c]).

(** [http.Error(w, msg, code)]. *)
Definition Error (msg : string) (code : Z) (w : ResponseWriter) : ResponseWriter :=
  Write (Text msg) (WriteHeader code w).

End http.

(** ** Package [server]: the begin handler and the jobs *)

Module server.

(** [type requestData struct]. The field [Reservoir] is [Reservoir_] here,
    the name being taken by the record of the store; the [responseWriter]
    field is passed along with the request. *)
Record requestData : Type := mkRequestData {
  Reservoir_ : list Z;
  SessionID : Z;
  IntegerToAdd : Z
}.

Definition MISSING_INPUT_RESERVOIR : Z := 0.

(** [JobBeginSession.Process]. [json.Marshal] of a structure holding one
    [uint64] cannot fail. *)
Definition JobBeginSession_Process (request : requestData)
    (w : http.ResponseWriter) : M (http.ResponseWriter * error) :=
  '(sessionID, err) ← api.BeginSession (Reservoir_ request);
  match err with
  | NotFound _ =>
    mret (http.Write (http.ErrorText err)
            (http.WriteHeader http.StatusInternalServerError w), err)
  | nil_error =>
    let w := http.WriteHeader http.StatusOK w in
    let w := http.Write (http.JsonSessionID sessionID) w in
    mret (w, nil_error)
  end.

(** [JobAddInteger.Process]. *)
Definition JobAddInteger_Process (draw : Z) (request : requestData)
    (w : http.ResponseWriter) : M (http.ResponseWriter * error) :=
  err ← api.AddInteger draw (SessionID request) (IntegerToAdd request);
  match err with
  | NotFound _ =>
    mret (http.Write (http.ErrorText err) (http.WriteHeader http.StatusNotFound w), err)
  | nil_error => mret (http.WriteHeader http.StatusOK w, nil_error)
  end.

(** [JobEndSession.Process]. [json.Marshal] of a slice of [int] cannot fail. *)
Definition JobEndSession_Process (request : requestData)
    (w : http.ResponseWriter) : M (http.ResponseWriter * error) :=
  '(result, err) ← api.EndSession (SessionID request);
  match err with
  | NotFound _ =>
    mret (http.Write (http.ErrorText err) (http.WriteHeader http.StatusNotFound w), err)
  | nil_error =>
    let w := http.WriteHeader http.StatusOK w in
    let w := http.Write (http.JsonSample result) w in
    mret (w, nil_error)
  end.

(** [beginHandler]. [unmarshal_failed] and [req] are what [json.Unmarshal]
    made of the body. Neither error branch returns: the job is queued in all
    cases. The handler queues the job and waits for [done]; a worker takes it,
    calls [Process] and then [markDone]. *)
Definition beginHandler (unmarshal_failed : bool) (req : requestData)
    (w : http.ResponseWriter) : M http.ResponseWriter :=
  let w :=
    if unmarshal_failed
    then http.Error "Invalid input: make sure the input matches specifications."
           http.StatusBadRequest w
    else w in
  let w :=
    if len (Reservoir_ req) =? MISSING_INPUT_RESERVOIR
    then http.Error "Missing input: initial K integers for reservoir."
           http.StatusBadRequest w
    else w in
  '(w, _) ← JobBeginSession_Process req w;
  mret w.

(** [addHandler]. The error branch does not return either. *)
Definition addHandler (draw : Z) (unmarshal_failed : bool) (req : requestData)
    (w : http.ResponseWriter) : M http.ResponseWriter :=
  let w :=
    if unmarshal_failed
    then http.Error "Invalid input: make sure the input matches specifications."
           http.StatusBadRequest w
    else w in
  '(w, _) ← JobAddInteger_Process draw req w;
  mret w.

(** [endHandler]. [read_failed] tells whether [ioutil.ReadAll] returned an
    error. The handler first sets the [Content-Type] header: the header map
    is not part of the response as it is observed here (status line and
    body). No error branch returns. *)
Definition endHandler (read_failed unmarshal_failed : bool) (req : requestData)
    (w : http.ResponseWriter) : M http.ResponseWriter :=
  let w :=
    if read_failed
    then http.Error "Error reading request body." http.StatusInternalServerError w
    else w in
  let w :=
    if unmarshal_failed
    then http.Error "Invalid input: make sure the input matches specifications."
           http.StatusBadRequest w
    else w in
  '(w, _) ← JobEndSession_Process req w;
  mret w.

End server.

(** ** Concurrent runs

    The workers call the store from several goroutines. A goroutine inside a
    call is a program point with its local variables; one step runs one
    statement of the source on the shared state, or one memory access where a
    statement makes two ([reservoir.n += 1] loads and then stores). A
    schedule picks which goroutine moves next. *)

Module interleaving.

(** A goroutine inside [AtomicCreateReservoir] (with the statements of
    [AtomicGetSessionIDAndIncrement] in line). *)
Inductive creator : Type :=
  | C_load (reservoir : list Z)                     (* atomic.LoadUint64 *)
  | C_add (reservoir : list Z) (sessionID : Z)      (* atomic.AddUint64 *)
  | C_lock_map (res : Reservoir) (sessionID : Z)    (* sessionToReservoirLock.Lock() *)
  | C_put_reservoir (res : Reservoir) (sessionID : Z)
  | C_lock_locks (sessionID : Z)                    (* sessionToSessionLockLock.Lock() *)
  | C_put_lock (sessionID : Z)
  | C_unlock_locks (sessionID : Z)
  | C_unlock_map (sessionID : Z)
  | C_returned (sessionID : Z)
  | C_crashed.

(** One step of a creator; [None] when it cannot move: it has returned, or
    it waits for a mutex. *)
Definition create_step (t : creator) (state : ReservoirState)
    : option (creator * ReservoirState) :=
  match t with
  | C_load reservoir => Some (C_add reservoir (nextSessionID state), state)
  | C_add reservoir sessionID =>
    Some (C_lock_map (mkReservoir reservoir (len reservoir) (len reservoir)) sessionID,
          set_nextSessionID (wrap_uint64 (nextSessionID state + 1)) state)
  | C_lock_map res sessionID =>
    m ← sync.Lock (sessionToReservoirLock state);
    Some (C_put_reservoir res sessionID, set_sessionToReservoirLock m state)
  | C_put_reservoir res sessionID =>
    Some (C_lock_locks sessionID,
          set_sessionToReservoir (fun m => <[sessionID := res]> m) state)
  | C_lock_locks sessionID =>
    m ← sync.Lock (sessionToSessionLockLock state);
    Some (C_put_lock sessionID, set_sessionToSessionLockLock m state)
  | C_put_lock sessionID =>
    Some (C_unlock_locks sessionID,
          set_sessionToSessionLock (fun m => <[sessionID := sync.zero]> m) state)
  | C_unlock_locks sessionID =>
    match sync.Unlock (sessionToSessionLockLock state) with
    | Some m => Some (C_unlock_map sessionID, set_sessionToSessionLockLock m state)
    | None => Some (C_crashed, state)
    end
  | C_unlock_map sessionID =>
    match sync.Unlock (sessionToReservoirLock state) with
    | Some m => Some (C_returned sessionID, set_sessionToReservoirLock m state)
    | None => Some (C_crashed, state)
    end
  | C_returned _ | C_crashed => None
  end.

(** The local variables of a goroutine inside [AtomicUpdateReservoir]:
    the arguments, the variate [rand.Intn] takes in this call, the mutex that
    the lookup copied out of [sessionToSessionLock], whether the pointer read
    from [sessionToReservoir] is nil, the value loaded by [reservoir.n += 1],
    and [randomIndex]. *)
Record update_frame : Type := mkFrame {
  f_sessionID : Z;
  f_integerToAdd : Z;
  f_draw : Z;
  f_reservoirLock : sync.RWMutex;
  f_reservoir_nil : bool;
  f_loaded : Z;
  f_randomIndex : Z
}.

(** The program points of [AtomicUpdateReservoir]. *)
Inductive update_pc : Type :=
  | U_lookup        (* reservoirLock, found := state.sessionToSessionLock[sessionID] *)
  | U_lock          (* reservoirLock.Lock() *)
  | U_rlock         (* state.sessionToReservoirLock.RLock() *)
  | U_fetch         (* reservoir := state.sessionToReservoir[sessionID] *)
  | U_runlock       (* state.sessionToReservoirLock.RUnlock() *)
  | U_load_n        (* reservoir.n += 1, the load *)
  | U_store_n       (* reservoir.n += 1, the store *)
  | U_draw          (* randomIndex := rand.Intn(reservoir.n) *)
  | U_test          (* if randomIndex < reservoir.k *)
  | U_write         (* reservoir.data[randomIndex] = integerToAdd *)
  | U_unlock        (* reservoirLock.Unlock() *)
  | U_returned (err : error)
  | U_crashed.

Definition updater : Type := update_pc * update_frame.

Definition start_update (draw sessionID integerToAdd : Z) : updater :=
  (U_lookup, mkFrame sessionID integerToAdd draw sync.zero true 0 0).

Definition with_lock (m : sync.RWMutex) (f : update_frame) : update_frame :=
  mkFrame (f_sessionID f) (f_integerToAdd f) (f_draw f) m
    (f_reservoir_nil f) (f_loaded f) (f_randomIndex f).
Definition with_reservoir_nil (b : bool) (f : update_frame) : update_frame :=
  mkFrame (f_sessionID f) (f_integerToAdd f) (f_draw f) (f_reservoirLock f)
    b (f_loaded f) (f_randomIndex f).
Definition with_loaded (v : Z) (f : update_frame) : update_frame :=
  mkFrame (f_sessionID f) (f_integerToAdd f) (f_draw f) (f_reservoirLock f)
    (f_reservoir_nil f) v (f_randomIndex f).
Definition with_randomIndex (v : Z) (f : update_frame) : update_frame :=
  mkFrame (f_sessionID f) (f_integerToAdd f) (f_draw f) (f_reservoirLock f)
    (f_reservoir_nil f) (f_loaded f) v.

(** The object behind the pointer [reservoir]. While no session is created
    or ended, it is the entry of the map the pointer was read from. *)
Definition deref (f : update_frame) (state : ReservoirState) : option Reservoir :=
  if f_reservoir_nil f then None else sessionToReservoir state !! f_sessionID f.

Definition assign (f : update_frame) (r : Reservoir) (state : ReservoirState)
    : ReservoirState :=
  set_sessionToReservoir (fun m => <[f_sessionID f := r]> m) state.

(** One step of an updater. *)
Definition update_step (t : updater) (state : ReservoirState)
    : option (updater * ReservoirState) :=
  let '(pc, f) := t in
  match pc with
  | U_lookup =>
    match sessionToSessionLock state !! f_sessionID f with
    | None => Some ((U_returned (NotFound (f_sessionID f)), f), state)
    | Some reservoirLock => Some ((U_lock, with_lock reservoirLock f), state)
    end
  | U_lock =>
    m ← sync.Lock (f_reservoirLock f);
    Some ((U_rlock, with_lock m f), state)
  | U_rlock =>
    m ← sync.RLock (sessionToReservoirLock state);
    Some ((U_fetch, f), set_sessionToReservoirLock m state)
  | U_fetch =>
    let is_nil := bool_decide (sessionToReservoir state !! f_sessionID f = None) in
    Some ((U_runlock, with_reservoir_nil is_nil f), state)
  | U_runlock =>
    match sync.RUnlock (sessionToReservoirLock state) with
    | Some m => Some ((U_load_n, f), set_sessionToReservoirLock m state)
    | None => Some ((U_crashed, f), state)
    end
  | U_load_n =>
    match deref f state with
    | Some r => Some ((U_store_n, with_loaded (n r) f), state)
    | None => Some ((U_crashed, f), state)
    end
  | U_store_n =>
    match deref f state with
    | Some r =>
      Some ((U_draw, f),
            assign f (mkReservoir (data r) (k r) (wrap_int (f_loaded f + 1))) state)
    | None => Some ((U_crashed, f), state)
    end
  | U_draw =>
    match deref f state with
    | Some r =>
      if n r <=? 0 then Some ((U_crashed, f), state)
      else Some ((U_test, with_randomIndex (f_draw f mod n r) f), state)
    | None => Some ((U_crashed, f), state)
    end
  | U_test =>
    match deref f state with
    | Some r =>
      if f_randomIndex f <? k r then Some ((U_write, f), state)
      else Some ((U_unlock, f), state)
    | None => Some ((U_crashed, f), state)
    end
  | U_write =>
    match deref f state with
    | Some r =>
      match store_index (data r) (f_randomIndex f) (f_integerToAdd f) with
      | Some d => Some ((U_unlock, f), assign f (mkReservoir d (k r) (n r)) state)
      | None => Some ((U_crashed, f), state)
      end
    | None => Some ((U_crashed, f), state)
    end
  | U_unlock =>
    match sync.Unlock (f_reservoirLock f) with
    | Some m => Some ((U_returned nil_error, with_lock m f), state)
    | None => Some ((U_crashed, f), state)
    end
  | U_returned _ | U_crashed => None
  end.

(** Whether an updater is between its [Lock] and its [Unlock]. *)
Definition in_flight (t : updater) : bool :=
  match fst t with
  | U_rlock | U_fetch | U_runlock | U_load_n | U_store_n | U_draw | U_test
  | U_write | U_unlock => true
  | _ => false
  end.

(** The local variables of a goroutine inside [AtomicEndReservoirSession]:
    the argument, the mutex that the lookup copied out of
    [sessionToSessionLock], the object behind the pointer read from
    [sessionToReservoir] ([None] for nil; no creator and no ender writes to
    an object), and [data]. *)
Record end_frame : Type := mkEndFrame {
  e_sessionID : Z;
  e_reservoirLock : sync.RWMutex;
  e_reservoir : option Reservoir;
  e_data : list Z
}.

(** The program points of [AtomicEndReservoirSession]. *)
Inductive end_pc : Type :=
  | E_lookup        (* reservoirLock, found := state.sessionToSessionLock[sessionID] *)
  | E_lock          (* reservoirLock.Lock() *)
  | E_lock_map      (* state.sessionToReservoirLock.Lock() *)
  | E_fetch         (* reservoir := state.sessionToReservoir[sessionID] *)
  | E_read_data     (* data := reservoir.data *)
  | E_delete        (* delete(state.sessionToReservoir, sessionID) *)
  | E_unlock_map    (* state.sessionToReservoirLock.Unlock() *)
  | E_unlock        (* reservoirLock.Unlock() *)
  | E_lock_locks    (* state.sessionToSessionLockLock.Lock() *)
  | E_delete_lock   (* delete(state.sessionToSessionLock, sessionID) *)
  | E_unlock_locks  (* state.sessionToSessionLockLock.Unlock() *)
  | E_returned (data : list Z) (err : error)
  | E_crashed.

Definition ender : Type := end_pc * end_frame.

Definition start_end (sessionID : Z) : ender :=
  (E_lookup, mkEndFrame sessionID sync.zero None []).

(** One step of an ender. *)
Definition end_step (t : ender) (state : ReservoirState)
    : option (ender * ReservoirState) :=
  let '(pc, f) := t in
  let id := e_sessionID f in
  match pc with
  | E_lookup =>
    match sessionToSessionLock state !! id with
    | None => Some ((E_returned [] (NotFound id), f), state)
    | Some reservoirLock =>
      Some ((E_lock, mkEndFrame id reservoirLock (e_reservoir f) (e_data f)), state)
    end
  | E_lock =>
    m ← sync.Lock (e_reservoirLock f);
    Some ((E_lock_map, mkEndFrame id m (e_reservoir f) (e_data f)), state)
  | E_lock_map =>
    m ← sync.Lock (sessionToReservoirLock state);
    Some ((E_fetch, f), set_sessionToReservoirLock m state)
  | E_fetch =>
    Some ((E_read_data,
           mkEndFrame id (e_reservoirLock f) (sessionToReservoir state !! id) (e_data f)),
          state)
  | E_read_data =>
    match e_reservoir f with
    | Some reservoir =>
      Some ((E_delete, mkEndFrame id (e_reservoirLock f) (e_reservoir f) (data reservoir)),
            state)
    | None => Some ((E_crashed, f), state)
    end
  | E_delete =>
    Some ((E_unlock_map, f), set_sessionToReservoir (fun m => delete id m) state)
  | E_unlock_map =>
    match sync.Unlock (sessionToReservoirLock state) with
    | Some m => Some ((E_unlock, f), set_sessionToReservoirLock m state)
    | None => Some ((E_crashed, f), state)
    end
  | E_unlock =>
    match sync.Unlock (e_reservoirLock f) with
    | Some m =>
      Some ((E_lock_locks, mkEndFrame id m (e_reservoir f) (e_data f)), state)
    | None => Some ((E_crashed, f), state)
    end
  | E_lock_locks =>
    m ← sync.Lock (sessionToSessionLockLock state);
    Some ((E_delete_lock, f), set_sessionToSessionLockLock m state)
  | E_delete_lock =>
    Some ((E_unlock_locks, f), set_sessionToSessionLock (fun m => delete id m) state)
  | E_unlock_locks =>
    match sync.Unlock (sessionToSessionLockLock state) with
    | Some m => Some ((E_returned (e_data f) nil_error, f), set_sessionToSessionLockLock m state)
    | None => Some ((E_crashed, f), state)
    end
  | E_returned _ _ | E_crashed => None
  end.

(** A goroutine that creates a session or ends one. *)
Inductive goroutine : Type :=
  | G_create (t : creator)
  | G_end (t : ender).

Definition store_step (g : goroutine) (state : ReservoirState)
    : option (goroutine * ReservoirState) :=
  match g with
  | G_create t => '(t', state) ← create_step t state; Some (G_create t', state)
  | G_end t => '(t', state) ← end_step t state; Some (G_end t', state)
  end.

(** What a goroutine has returned, if it has. *)
Definition returned (g : goroutine) : option (Z + list Z * error) :=
  match g with
  | G_create (C_returned sessionID) => Some (inl sessionID)
  | G_end (E_returned data err, _) => Some (inr (data, err))
  | _ => None
  end.

Section Schedules.

Context {T : Type} (step : T -> ReservoirState -> option (T * ReservoirState)).

(** Goroutine [i] makes one step. *)
Definition move (i : nat) (cfg : list T * ReservoirState)
    : option (list T * ReservoirState) :=
  t ← fst cfg !! i;
  '(t', state) ← step t (snd cfg);
  Some (<[i := t']> (fst cfg), state).

(** The goroutines move in the order the schedule gives; [None] when the
    schedule asks one to move that cannot. *)
Fixpoint run (schedule : list nat) (cfg : list T * ReservoirState)
    : option (list T * ReservoirState) :=
  match schedule with
  | [] => Some cfg
  | i :: schedule => cfg ← move i cfg; run schedule cfg
  end.

End Schedules.

End interleaving.

(** ** Sequential request traces

    The three operations of the store as the jobs call them, one request
    after the other. *)

Module session.

Inductive request : Type :=
  | Begin (initial : list Z)
  | Add (draw : Z) (sessionID : Z) (value : Z)
  | End_ (sessionID : Z).

Inductive response : Type :=
  | Began (sessionID : Z)
  | Added (err : error)
  | Ended (sample : list Z) (err : error).

Definition serve (rq : request) : M response :=
  match rq with
  | Begin initial => '(sessionID, _) ← api.BeginSession initial; mret (Began sessionID)
  | Add draw sessionID value => err ← api.AddInteger draw sessionID value; mret (Added err)
  | End_ sessionID => '(sample, err) ← api.EndSession sessionID; mret (Ended sample err)
  end.

Fixpoint serve_all (rqs : list request) : M (list response) :=
  match rqs with
  | [] => mret []
  | rq :: rqs => r ← serve rq; rs ← serve_all rqs; mret (r :: rs)
  end.

(** A request a client can send: the initial reservoir is a Go slice, whose
    length is an [int]. *)
Definition sendable (rq : request) : Prop :=
  match rq with
  | Begin initial => len initial <= max_int
  | _ => True
  end.

(** The states the store goes through when requests are served one by one
    from start-up. *)
Definition reachable (s : ReservoirState) : Prop :=
  exists rqs rs, Forall sendable rqs /\ serve_all rqs NewReservoirState = Returns rs s.

(** The identifiers handed out in a trace, in order. *)
Definition began (rs : list response) : list Z :=
  omap (fun r => match r with Began sessionID => Some sessionID | _ => None end) rs.

(** The number of sessions a trace begins. *)
Definition is_begin (rq : request) : bool :=
  match rq with Begin _ => true | _ => false end.

Definition begins (rqs : list request) : Z := len (List.filter is_begin rqs).

End session.

(** ** Invariants of the store *)

(** No call is in progress: every mutex is free. *)
Definition quiescent (s : ReservoirState) : Prop :=
  sessionToReservoirLock s = sync.zero /\
  sessionToSessionLockLock s = sync.zero /\
  forall id m, sessionToSessionLock s !! id = Some m -> m = sync.zero.

(** The two maps have the same keys. *)
Definition same_keys (s : ReservoirState) : Prop :=
  dom (sessionToReservoir s) = dom (sessionToSessionLock s).

(** [len(data) == k] and [n >= k], with [n] an [int]. *)
Definition capacity_inv (r : Reservoir) : Prop :=
  len (data r) = k r /\ k r <= n r /\ n r <= max_int.

Definition store_inv (s : ReservoirState) : Prop :=
  forall id r, sessionToReservoir s !! id = Some r -> capacity_inv r.

(** A store at rest. *)
Definition wf (s : ReservoirState) : Prop :=
  quiescent s /\ same_keys s /\ store_inv s.

(** The session is in the store. *)
Definition present (s : ReservoirState) (sessionID : Z) : Prop :=
  is_Some (sessionToReservoir s !! sessionID).

(** The counter has not wrapped: every key is an identifier already handed
    out, below the next one. *)
Definition unwrapped (s : ReservoirState) : Prop :=
  1 <= nextSessionID s <= max_uint64 /\
  forall id, present s id -> 1 <= id < nextSessionID s.

(** The store with the reservoir of one session replaced. *)
Definition put (sessionID : Z) (r : Reservoir) (s : ReservoirState) : ReservoirState :=
  set_sessionToReservoir (fun m => <[sessionID := r]> m) s.

(** ** Notions for traces and pools *)

(** The values a trace adds to a session, in order. *)
Definition values_added (sessionID : Z) (rqs : list session.request) : list Z :=
  omap (fun rq => match rq with
                  | session.Add _ id value =>
                    if decide (id = sessionID) then Some value else None
                  | _ => None
                  end) rqs.

(** A trace of updates only. *)
Definition is_add (rq : session.request) : Prop :=
  match rq with session.Add _ _ _ => True | _ => False end.

(** An update of the given session. *)
Definition is_add_to (sessionID : Z) (rq : session.request) : Prop :=
  match rq with session.Add _ id _ => id = sessionID | _ => False end.

(** Whether a creator has added to the identifier counter. *)
Definition has_added (t : interleaving.creator) : Z :=
  match t with
  | interleaving.C_load _ | interleaving.C_add _ _ => 0
  | _ => 1
  end.

(** Whether a creator holds [sessionToReservoirLock]. *)
Definition holds_map_lock (t : interleaving.creator) : Z :=
  match t with
  | interleaving.C_put_reservoir _ _ | interleaving.C_lock_locks _
  | interleaving.C_put_lock _ | interleaving.C_unlock_locks _
  | interleaving.C_unlock_map _ => 1
  | _ => 0
  end.

(** Whether a creator holds [sessionToSessionLockLock]. *)
Definition holds_locks_lock (t : interleaving.creator) : Z :=
  match t with
  | interleaving.C_put_lock _ | interleaving.C_unlock_locks _ => 1
  | _ => 0
  end.

(** The sum of a measure over the goroutines of a pool. *)
Definition total {T : Type} (f : T -> Z) (pool : list T) : Z :=
  fold_right (fun t acc => f t + acc) 0 pool.

(** The two structural mutexes say who is inside, and nobody has aborted. *)
Definition locks_agree (cfg : list interleaving.creator * ReservoirState) : Prop :=
  let '(pool, s) := cfg in
  0 <= total holds_map_lock pool <= 1 /\
  sessionToReservoirLock s = sync.mkRWMutex (total holds_map_lock pool =? 1) 0 /\
  0 <= total holds_locks_lock pool <= 1 /\
  sessionToSessionLockLock s = sync.mkRWMutex (total holds_locks_lock pool =? 1) 0 /\
  Forall (fun t => t <> interleaving.C_crashed) pool.

(** ** Go integers *)

Lemma wrap_int_small z : min_int <= z <= max_int -> wrap_int z = z.
Proof.
  unfold wrap_int, min_int, max_int. intros H.
  rewrite Z.mod_small; lia.
Qed.

Lemma wrap_int_overflow : wrap_int (max_int + 1) = min_int.
Proof. reflexivity. Qed.

Lemma wrap_uint64_small z : 0 <= z <= max_uint64 -> wrap_uint64 z = z.
Proof.
  unfold wrap_uint64, max_uint64. intros H. rewrite Z.mod_small; lia.
Qed.

Lemma wrap_uint64_overflow : wrap_uint64 (max_uint64 + 1) = 0.
Proof. reflexivity. Qed.

(** If the incremented counter is positive, the increment did not wrap. *)
Lemma wrap_int_succ_pos v :
  0 <= v <= max_int -> 0 < wrap_int (v + 1) -> wrap_int (v + 1) = v + 1 /\ v < max_int.
Proof.
  intros Hv Hpos.
  destruct (Z.eq_dec v max_int) as [->|Hne].
  - rewrite wrap_int_overflow in Hpos. unfold min_int in Hpos. lia.
  - split; [|lia]. apply wrap_int_small. unfold min_int, max_int in *. lia.
Qed.

(** ** The calls on a store at rest *)

Lemma create_eq reservoir s :
  sessionToReservoirLock s = sync.zero ->
  sessionToSessionLockLock s = sync.zero ->
  AtomicCreateReservoir reservoir s =
  Returns (nextSessionID s)
    (mkReservoirState
       (<[nextSessionID s := mkReservoir reservoir (len reservoir) (len reservoir)]>
          (sessionToReservoir s))
       sync.zero
       (<[nextSessionID s := sync.zero]> (sessionToSessionLock s))
       sync.zero
       (wrap_uint64 (nextSessionID s + 1))).
Proof.
  destruct s as [rs l1 ls l2 c]. simpl. intros -> ->. reflexivity.
Qed.

Lemma update_not_found draw id v s :
  sessionToSessionLock s !! id = None ->
  AtomicUpdateReservoir draw id v s = Returns (NotFound id) s.
Proof.
  intros H. unfold AtomicUpdateReservoir, mbind, M_bind, bind. simpl.
  rewrite H. reflexivity.
Qed.

Ltac go_unfold :=
  unfold session.serve, api.BeginSession, api.AddInteger, api.EndSession,
    AtomicUpdateReservoir, AtomicEndReservoirSession, AtomicCreateReservoir,
    AtomicGetSessionIDAndIncrement, write_reservoir, Intn, on_mutex, on_local,
    mbind, M_bind, bind, mret, M_ret, ret, get, modify, panic, block in *.

Lemma update_found draw id v s m r :
  quiescent s ->
  sessionToSessionLock s !! id = Some m ->
  sessionToReservoir s !! id = Some r ->
  AtomicUpdateReservoir draw id v s =
  if wrap_int (n r + 1) <=? 0 then Panics
  else if draw mod wrap_int (n r + 1) <? k r then
    match store_index (data r) (draw mod wrap_int (n r + 1)) v with
    | Some d => Returns nil_error (put id (mkReservoir d (k r) (wrap_int (n r + 1))) s)
    | None => Panics
    end
  else Returns nil_error (put id (mkReservoir (data r) (k r) (wrap_int (n r + 1))) s).
Proof.
  intros (H1 & H2 & Hz) Hm Hr. rewrite (Hz _ _ Hm) in Hm.
  destruct s as [rs l1 ls l2 c]. simpl in *. subst l1 l2.
  go_unfold. simpl. rewrite Hm. simpl. rewrite Hr. simpl.
  destruct (wrap_int (n r + 1) <=? 0); [reflexivity|]. simpl.
  destruct (draw mod wrap_int (n r + 1) <? k r); [|reflexivity].
  destruct (store_index (data r) (draw mod wrap_int (n r + 1)) v); [|reflexivity].
  simpl. unfold put, set_sessionToReservoir. simpl.
  rewrite insert_insert_eq. reflexivity.
Qed.

Lemma end_not_found id s :
  sessionToSessionLock s !! id = None ->
  AtomicEndReservoirSession id s = Returns ([], NotFound id) s.
Proof.
  intros H. go_unfold. simpl. rewrite H. reflexivity.
Qed.

Lemma end_found id s m r :
  quiescent s ->
  sessionToSessionLock s !! id = Some m ->
  sessionToReservoir s !! id = Some r ->
  AtomicEndReservoirSession id s =
  Returns (data r, nil_error)
    (set_sessionToSessionLock (fun m => delete id m)
       (set_sessionToReservoir (fun m => delete id m) s)).
Proof.
  intros (H1 & H2 & Hz) Hm Hr. rewrite (Hz _ _ Hm) in Hm.
  destruct s as [rs l1 ls l2 c]. simpl in *. subst l1 l2.
  go_unfold. simpl. rewrite Hm. simpl. rewrite Hr. reflexivity.
Qed.

(** In a store with the same keys in both maps, a session has a lock exactly
    when it has a reservoir. *)
Lemma same_keys_lookup s id :
  same_keys s ->
  (is_Some (sessionToSessionLock s !! id) <-> is_Some (sessionToReservoir s !! id)).
Proof.
  unfold same_keys. intros H. rewrite <- !elem_of_dom, H. reflexivity.
Qed.

Lemma same_keys_none s id :
  same_keys s ->
  (sessionToSessionLock s !! id = None <-> sessionToReservoir s !! id = None).
Proof.
  intros H. rewrite <- !not_elem_of_dom, H. reflexivity.
Qed.

Lemma store_index_in_range l i v :
  0 <= i < len l -> store_index l i v = Some (<[Z.to_nat i := v]> l).
Proof.
  intros H. unfold store_index.
  destruct (0 <=? i) eqn:E1; [|lia]. destruct (i <? len l) eqn:E2; [|lia].
  reflexivity.
Qed.

(** What a returning update has done, on a store at rest. *)
Lemma update_returns draw id v s e s' :
  wf s ->
  AtomicUpdateReservoir draw id v s = Returns e s' ->
  (e = NotFound id /\ s' = s /\ sessionToReservoir s !! id = None) \/
  (exists r d,
     e = nil_error /\ sessionToReservoir s !! id = Some r /\ n r < max_int /\
     s' = put id (mkReservoir d (k r) (n r + 1)) s /\
     ((draw mod (n r + 1) < k r /\ 0 <= draw mod (n r + 1) < len (data r) /\
       d = <[Z.to_nat (draw mod (n r + 1)) := v]> (data r)) \/
      (k r <= draw mod (n r + 1) /\ d = data r))).
Proof.
  intros (Hq & Hk & Hi) Hrun.
  destruct (sessionToSessionLock s !! id) as [m|] eqn:Hm.
  - assert (is_Some (sessionToReservoir s !! id)) as [r Hr].
    { apply same_keys_lookup; eauto. }
    right. rewrite (update_found _ _ _ _ _ _ Hq Hm Hr) in Hrun.
    destruct (Hi _ _ Hr) as (Hlen & Hkn & Hmax).
    destruct (wrap_int (n r + 1) <=? 0) eqn:Hpos; [discriminate|].
    apply Z.leb_gt in Hpos.
    assert (0 <= n r) as Hn0 by (unfold len in Hlen; lia).
    destruct (wrap_int_succ_pos (n r) ltac:(lia) Hpos) as [Hw Hlt].
    rewrite Hw in Hrun.
    destruct (draw mod (n r + 1) <? k r) eqn:Hd.
    + apply Z.ltb_lt in Hd.
      unfold store_index in Hrun.
      destruct (0 <=? draw mod (n r + 1)) eqn:H0;
        destruct (draw mod (n r + 1) <? len (data r)) eqn:H1;
        simpl in Hrun; try discriminate.
      injection Hrun as <- <-.
      exists r, (<[Z.to_nat (draw mod (n r + 1)) := v]> (data r)).
      do 4 (split; [first [reflexivity | assumption]|]).
      left. repeat split; first [reflexivity | lia].
    + apply Z.ltb_ge in Hd. injection Hrun as <- <-.
      exists r, (data r).
      do 4 (split; [first [reflexivity | assumption]|]).
      right. split; [lia | reflexivity].
  - left. rewrite update_not_found in Hrun by exact Hm.
    injection Hrun as <- <-. repeat split; auto.
    apply same_keys_none; auto.
Qed.

Lemma end_returns id s sample e s' :
  wf s ->
  AtomicEndReservoirSession id s = Returns (sample, e) s' ->
  (e = NotFound id /\ sample = [] /\ s' = s /\ sessionToReservoir s !! id = None) \/
  (exists r,
     e = nil_error /\ sessionToReservoir s !! id = Some r /\ sample = data r /\
     s' = set_sessionToSessionLock (fun m => delete id m)
            (set_sessionToReservoir (fun m => delete id m) s)).
Proof.
  intros (Hq & Hk & Hi) Hrun.
  destruct (sessionToSessionLock s !! id) as [m|] eqn:Hm.
  - assert (is_Some (sessionToReservoir s !! id)) as [r Hr].
    { apply same_keys_lookup; eauto. }
    right. rewrite (end_found _ _ _ _ Hq Hm Hr) in Hrun.
    injection Hrun as <- <- <-. exists r. auto.
  - left. rewrite end_not_found in Hrun by exact Hm.
    injection Hrun as <- <- <-. repeat split; auto.
    apply same_keys_none; auto.
Qed.

(** *** The invariants hold in every reachable state *)

Lemma wf_initial : wf NewReservoirState.
Proof.
  split; [|split].
  - repeat split. intros id m H. simpl in H. rewrite lookup_empty in H. discriminate.
  - reflexivity.
  - intros id r H. simpl in H. rewrite lookup_empty in H. discriminate.
Qed.

Lemma create_wf reservoir s id s' :
  wf s -> len reservoir <= max_int ->
  AtomicCreateReservoir reservoir s = Returns id s' -> wf s'.
Proof.
  intros ((H1 & H2 & Hz) & Hk & Hi) Hlen Hrun.
  rewrite create_eq in Hrun by assumption. injection Hrun as <- <-.
  split; [|split].
  - repeat split. intros id0 m. simpl. rewrite lookup_insert.
    case_decide; [congruence|]. apply Hz.
  - unfold same_keys in *. simpl. rewrite !dom_insert_L, Hk. reflexivity.
  - intros id0 r. simpl. rewrite lookup_insert. case_decide; [|apply Hi].
    intros [= <-]. unfold capacity_inv. simpl. lia.
Qed.

Lemma put_wf id r r' s :
  wf s -> sessionToReservoir s !! id = Some r -> capacity_inv r' -> wf (put id r' s).
Proof.
  intros (Hq & Hk & Hi) Hr Hinv. split; [exact Hq|]. split.
  - unfold same_keys in *. simpl. rewrite dom_insert_lookup_L by eauto. exact Hk.
  - intros id' r0. simpl. rewrite lookup_insert. case_decide.
    + intros [= <-]. exact Hinv.
    + apply Hi.
Qed.

Lemma update_wf draw id v s e s' :
  wf s -> AtomicUpdateReservoir draw id v s = Returns e s' -> wf s'.
Proof.
  intros Hwf Hrun.
  destruct (update_returns _ _ _ _ _ _ Hwf Hrun)
    as [(_ & -> & _) | (r & d & _ & Hr & Hlt & -> & Hd)]; [exact Hwf|].
  eapply put_wf; eauto.
  destruct Hwf as (_ & _ & Hi). destruct (Hi _ _ Hr) as (Hlen & Hkn & Hmax).
  unfold capacity_inv. simpl.
  destruct Hd as [(_ & _ & ->) | (_ & ->)]; unfold len in *;
    rewrite ?length_insert; lia.
Qed.

Lemma end_wf id s res s' :
  wf s -> AtomicEndReservoirSession id s = Returns res s' -> wf s'.
Proof.
  intros Hwf Hrun. destruct res as [sample e].
  destruct (end_returns _ _ _ _ _ Hwf Hrun)
    as [(_ & _ & -> & _) | (r & _ & Hr & _ & ->)]; [exact Hwf|].
  destruct Hwf as ((H1 & H2 & Hz) & Hk & Hi). split; [|split].
  - repeat split; auto. intros id' m. simpl. rewrite lookup_delete.
    case_decide; [discriminate|]. apply Hz.
  - unfold same_keys in *. simpl. rewrite !dom_delete_L, Hk. reflexivity.
  - intros id' r0. simpl. rewrite lookup_delete.
    case_decide; [discriminate|]. apply Hi.
Qed.

Import session.

Lemma serve_begin initial s r s' :
  serve (Begin initial) s = Returns r s' ->
  exists id, AtomicCreateReservoir initial s = Returns id s' /\ r = Began id.
Proof.
  unfold serve, api.BeginSession, mbind, M_bind, bind, mret, M_ret, ret.
  destruct (AtomicCreateReservoir initial s) as [id s1| |]; try discriminate.
  intros [= <- <-]. eauto.
Qed.

Lemma serve_add draw id v s r s' :
  serve (Add draw id v) s = Returns r s' ->
  exists e, AtomicUpdateReservoir draw id v s = Returns e s' /\ r = Added e.
Proof.
  unfold serve, api.AddInteger, mbind, M_bind, bind, mret, M_ret, ret.
  destruct (AtomicUpdateReservoir draw id v s) as [e s1| |]; try discriminate.
  intros [= <- <-]. eauto.
Qed.

Lemma serve_end id s r s' :
  serve (End_ id) s = Returns r s' ->
  exists sample e,
    AtomicEndReservoirSession id s = Returns (sample, e) s' /\ r = Ended sample e.
Proof.
  unfold serve, api.EndSession, mbind, M_bind, bind, mret, M_ret, ret.
  destruct (AtomicEndReservoirSession id s) as [[sample e] s1| |]; try discriminate.
  intros [= <- <-]. eauto.
Qed.

Lemma serve_all_cons rq rqs s rs s' :
  serve_all (rq :: rqs) s = Returns rs s' ->
  exists r s1 rs',
    serve rq s = Returns r s1 /\ serve_all rqs s1 = Returns rs' s' /\ rs = r :: rs'.
Proof.
  change (serve_all (rq :: rqs) s)
    with (bind (serve rq) (fun r => bind (serve_all rqs) (fun rs => ret (r :: rs))) s).
  unfold bind, ret.
  destruct (serve rq s) as [r s1| |]; try discriminate.
  destruct (serve_all rqs s1) as [rs' s2| |] eqn:E; try discriminate.
  intros [= <- <-]. exists r, s1, rs'. repeat split; auto.
Qed.


Lemma serve_wf rq s r s' :
  wf s -> sendable rq -> serve rq s = Returns r s' -> wf s'.
Proof.
  intros Hwf Hok Hrun. destruct rq as [initial | draw id v | id].
  - apply serve_begin in Hrun as (id & Hrun & _). eapply create_wf; eauto.
  - apply serve_add in Hrun as (e & Hrun & _). eapply update_wf; eauto.
  - apply serve_end in Hrun as (sample & e & Hrun & _). eapply end_wf; eauto.
Qed.

Lemma serve_all_wf rqs s rs s' :
  wf s -> Forall sendable rqs -> serve_all rqs s = Returns rs s' -> wf s'.
Proof.
  revert s rs. induction rqs as [|rq rqs IH]; intros s rs Hwf Hok Hrun.
  - injection Hrun as <- <-. exact Hwf.
  - apply serve_all_cons in Hrun as (r & s1 & rs' & Hr & Hrs & ->).
    apply Forall_cons in Hok as [Hrq Hrqs].
    apply (IH s1 rs'); [eapply serve_wf; eassumption | assumption | assumption].
Qed.

Lemma reachable_wf s : reachable s -> wf s.
Proof.
  intros (rqs & rs & Hok & Hrun). eapply serve_all_wf; eauto. apply wf_initial.
Qed.

Lemma reachable_initial : reachable NewReservoirState.
Proof. exists [], []. split; [constructor | reflexivity]. Qed.

Lemma reachable_123 :
  reachable (mkReservoirState {[1 := mkReservoir [1; 2; 3] 3 3]} sync.zero
               {[1 := sync.zero]} sync.zero 2).
Proof.
  exists [Begin [1; 2; 3]], [Began 1]. split; [|reflexivity].
  repeat constructor. vm_compute. discriminate.
Qed.

(** ** The update rule *)

Lemma put_lookup id r s id' :
  sessionToReservoir (put id r s) !! id' =
  if decide (id = id') then Some r else sessionToReservoir s !! id'.
Proof. unfold put. simpl. apply lookup_insert. Qed.

(** The update of a session whose counter is below the largest [int]: the
    index is the remainder of the variate modulo the incremented counter. *)
Lemma update_below_top draw id v s r :
  wf s ->
  sessionToReservoir s !! id = Some r ->
  n r < max_int ->
  wrap_int (n r + 1) = n r + 1 /\
  0 <= draw mod (n r + 1) < n r + 1 /\
  AtomicUpdateReservoir draw id v s =
  Returns nil_error
    (put id (mkReservoir
               (if draw mod (n r + 1) <? k r
                then <[Z.to_nat (draw mod (n r + 1)) := v]> (data r) else data r)
               (k r) (n r + 1)) s).
Proof.
  intros Hwf Hr Hlt.
  pose proof Hwf as (Hq & Hk & Hi).
  destruct (Hi _ _ Hr) as (Hlen & Hkn & Hmax).
  assert (is_Some (sessionToSessionLock s !! id)) as [m Hm].
  { apply same_keys_lookup; eauto. }
  assert (0 <= n r) as Hn0 by (unfold len in Hlen; lia).
  assert (wrap_int (n r + 1) = n r + 1) as Hw.
  { apply wrap_int_small. unfold min_int, max_int in *. lia. }
  pose proof (Z.mod_pos_bound draw (n r + 1) ltac:(lia)) as Hi'.
  split; [exact Hw|]. split; [exact Hi'|].
  rewrite (update_found _ _ _ _ _ _ Hq Hm Hr), Hw.
  destruct (n r + 1 <=? 0) eqn:E; [lia|].
  destruct (draw mod (n r + 1) <? k r) eqn:Hlt_k; [|reflexivity].
  apply Z.ltb_lt in Hlt_k. rewrite store_index_in_range by lia. reflexivity.
Qed.




(** ** The capacity invariant *)

(** C3. In every state the store reaches, each session has [len(data) == k]
    and [n >= k]. [CreateSession] builds the reservoir with
    [k = n = len(initial)]; an [UpdateSession] that returns, on any session,
    leaves every session with the same [k], data of the same length and an
    [n] that is not smaller; and an [EndSession] leaves the other sessions as
    they are. *)
Theorem C3_capacity_invariant (s : ReservoirState) :
  reachable s ->
  (forall id r, sessionToReservoir s !! id = Some r ->
     len (data r) = k r /\ k r <= n r) /\
  (forall initial,
     exists id s' r,
       AtomicCreateReservoir initial s = Returns id s' /\
       sessionToReservoir s' !! id = Some r /\
       data r = initial /\ k r = len initial /\ n r = len initial) /\
  (forall draw id value e s' id' r,
     AtomicUpdateReservoir draw id value s = Returns e s' ->
     sessionToReservoir s !! id' = Some r ->
     exists r',
       sessionToReservoir s' !! id' = Some r' /\
       k r' = k r /\ len (data r') = len (data r) /\ n r <= n r' /\
       len (data r') = k r' /\ k r' <= n r') /\
  (forall id sample e s' id' r,
     AtomicEndReservoirSession id s = Returns (sample, e) s' ->
     sessionToReservoir s !! id' = Some r ->
     id' <> id ->
     sessionToReservoir s' !! id' = Some r).
Proof.
  intros Hreach. pose proof (reachable_wf _ Hreach) as Hwf.
  pose proof Hwf as ((H1 & H2 & Hz) & Hk & Hi).
  split; [|split; [|split]].
  - intros id r Hr. destruct (Hi _ _ Hr) as (? & ? & ?). auto.
  - intros initial. rewrite create_eq by assumption.
    do 3 eexists. split; [reflexivity|]. simpl.
    rewrite lookup_insert_eq. repeat split; reflexivity.
  - intros draw id value e s' id' r Hrun Hr.
    destruct (Hi _ _ Hr) as (Hlen & Hkn & _).
    destruct (update_returns _ _ _ _ _ _ Hwf Hrun)
      as [(_ & -> & _) | (r0 & d & _ & Hr0 & Hlt & -> & Hd)].
    { exists r. repeat split; auto; lia. }
    rewrite put_lookup. case_decide as Hid.
    + subst id'. assert (r0 = r) as -> by congruence.
      eexists. split; [reflexivity|]. simpl.
      assert (len d = len (data r)) as Hd'.
      { destruct Hd as [(_ & _ & ->) | (_ & ->)]; [|reflexivity].
        unfold len. rewrite length_insert. reflexivity. }
      repeat split; lia.
    + exists r. repeat split; auto; lia.
  - intros id sample e s' id' r Hrun Hr Hne.
    destruct (end_returns _ _ _ _ _ Hwf Hrun)
      as [(_ & _ & -> & _) | (r0 & _ & _ & _ & ->)]; [exact Hr|].
    simpl. rewrite lookup_delete_ne by congruence. exact Hr.
Qed.

(** Witness for C3: the start-up state. *)
Lemma C3_capacity_invariant_witness :
  exists id s' r,
    AtomicCreateReservoir [1; 2; 3] NewReservoirState = Returns id s' /\
    sessionToReservoir s' !! id = Some r /\
    data r = [1; 2; 3] /\ k r = 3 /\ n r = 3.
Proof.
  exact (proj1 (proj2 (C3_capacity_invariant NewReservoirState reachable_initial))
           [1; 2; 3]).
Defined.

(** ** The two maps *)



(** ** Unknown sessions *)

(** The identifier counter after one request, and what the request does to
    the sessions it does not name. *)
Lemma serve_counter rq s r s' :
  wf s ->
  serve rq s = Returns r s' ->
  nextSessionID s' =
    (if is_begin rq then wrap_uint64 (nextSessionID s + 1) else nextSessionID s) /\
  (forall id, r = Began id -> id = nextSessionID s /\ is_begin rq = true) /\
  (forall id, present s' id -> present s id \/ (is_begin rq = true /\ id = nextSessionID s)).
Proof.
  intros Hwf Hrun. pose proof Hwf as ((H1 & H2 & Hz) & Hk & Hi).
  destruct rq as [initial | draw id v | id].
  - apply serve_begin in Hrun as (id & Hrun & ->).
    rewrite create_eq in Hrun by assumption. injection Hrun as <- <-. simpl.
    split; [reflexivity|]. split; [intros id [= <-]; split; reflexivity|].
    intros id. unfold present. simpl. rewrite lookup_insert.
    case_decide; [right | left]; auto.
  - apply serve_add in Hrun as (e & Hrun & ->). simpl.
    destruct (update_returns _ _ _ _ _ _ Hwf Hrun)
      as [(_ & -> & _) | (r0 & d & _ & Hr0 & _ & -> & _)].
    + split; [reflexivity|]. split; [discriminate|]. auto.
    + split; [reflexivity|]. split; [discriminate|].
      intros id'. unfold present. rewrite put_lookup.
      case_decide; [subst; eauto | auto].
  - apply serve_end in Hrun as (sample & e & Hrun & ->). simpl.
    destruct (end_returns _ _ _ _ _ Hwf Hrun)
      as [(_ & _ & -> & _) | (r0 & _ & _ & _ & ->)].
    + split; [reflexivity|]. split; [discriminate|]. auto.
    + split; [reflexivity|]. split; [discriminate|].
      intros id'. unfold present. simpl. rewrite lookup_delete.
      case_decide; [intros [? [=]] | auto].
Qed.

Lemma begins_cons rq rqs :
  begins (rq :: rqs) = (if is_begin rq then 1 else 0) + begins rqs.
Proof.
  unfold begins, len. simpl. destruct (is_begin rq); simpl; lia.
Qed.

Lemma begins_nonneg rqs : 0 <= begins rqs.
Proof. unfold begins, len. lia. Qed.


Lemma unwrapped_initial : unwrapped NewReservoirState.
Proof.
  split; [vm_compute; split; discriminate|].
  intros id [r Hr]. simpl in Hr. rewrite lookup_empty in Hr. discriminate.
Qed.

Lemma serve_begin_eq initial s :
  wf s ->
  serve (Begin initial) s =
  Returns (Began (nextSessionID s))
    (mkReservoirState
       (<[nextSessionID s := mkReservoir initial (len initial) (len initial)]>
          (sessionToReservoir s))
       sync.zero
       (<[nextSessionID s := sync.zero]> (sessionToSessionLock s))
       sync.zero
       (wrap_uint64 (nextSessionID s + 1))).
Proof.
  intros ((H1 & H2 & _) & _).
  unfold serve, api.BeginSession, mbind, M_bind, bind.
  rewrite create_eq by assumption. reflexivity.
Qed.

Lemma serve_all_step rq rqs s r s1 rs s2 :
  serve rq s = Returns r s1 ->
  serve_all rqs s1 = Returns rs s2 ->
  serve_all (rq :: rqs) s = Returns (r :: rs) s2.
Proof.
  intros Hr Hrs.
  change (serve_all (rq :: rqs) s)
    with (bind (serve rq) (fun r => bind (serve_all rqs) (fun rs => ret (r :: rs))) s).
  unfold bind. rewrite Hr, Hrs. reflexivity.
Qed.

Lemma wrap_uint64_range z : 0 <= wrap_uint64 z <= max_uint64.
Proof.
  unfold wrap_uint64, max_uint64. pose proof (Z.mod_pos_bound z (2 ^ 64)). lia.
Qed.

Lemma wrap_uint64_add z m : wrap_uint64 (wrap_uint64 z + m) = wrap_uint64 (z + m).
Proof. unfold wrap_uint64. apply Zplus_mod_idemp_l. Qed.

(** [m] sessions begun in a row: all requests return, and the counter has
    moved by [m], modulo 2^64. *)
Lemma begin_many initial m : forall s,
  wf s -> len initial <= max_int -> 0 <= nextSessionID s <= max_uint64 ->
  exists rs s',
    serve_all (repeat (Begin initial) m) s = Returns rs s' /\
    wf s' /\
    nextSessionID s' = wrap_uint64 (nextSessionID s + Z.of_nat m).
Proof.
  induction m as [|m IH]; intros s Hwf Hlen Hc0.
  - exists [], s. split; [reflexivity|]. split; [exact Hwf|].
    rewrite Z.add_0_r. symmetry. apply wrap_uint64_small. exact Hc0.
  - pose proof (serve_begin_eq initial s Hwf) as Hstep.
    set (s1 := mkReservoirState _ _ _ _ _) in Hstep.
    assert (wf s1) as Hwf1 by exact (serve_wf (Begin initial) _ _ _ Hwf Hlen Hstep).
    destruct (IH s1 Hwf1 Hlen (wrap_uint64_range _)) as (rs & s' & Hrun & Hwf' & Hc).
    exists (Began (nextSessionID s) :: rs), s'.
    split; [exact (serve_all_step _ _ _ _ _ _ _ Hstep Hrun)|].
    split; [exact Hwf'|].
    rewrite Hc. subst s1. simpl nextSessionID.
    rewrite wrap_uint64_add. f_equal. lia.
Qed.

Lemma put_put id a b s : put id a (put id b s) = put id a s.
Proof.
  unfold put, set_sessionToReservoir. simpl. rewrite insert_insert_eq. reflexivity.
Qed.

Lemma put_same id r s : sessionToReservoir s !! id = Some r -> put id r s = s.
Proof.
  intros H. destruct s. unfold put, set_sessionToReservoir. simpl in *.
  rewrite insert_id by exact H. reflexivity.
Qed.

(** Updates whose draws all miss the reservoir (the reservoir is empty, or
    the variate is in [[k, n]] and so is its own remainder): each returns,
    and only [n] moves, as long as it stays an [int]. *)
Lemma add_misses id (dvs : list (Z * Z)) : forall s r,
  wf s ->
  sessionToReservoir s !! id = Some r ->
  Forall (fun dv => k r = 0 \/ k r <= fst dv <= n r) dvs ->
  n r + len dvs <= max_int ->
  serve_all (List.map (fun dv => Add (fst dv) id (snd dv)) dvs) s =
  Returns (List.map (fun _ => Added nil_error) dvs)
    (put id (mkReservoir (data r) (k r) (n r + len dvs)) s).
Proof.
  induction dvs as [|[draw v] dvs IH]; intros s r Hwf Hr Hmiss Hbound.
  - simpl. unfold len. simpl. rewrite Z.add_0_r.
    destruct r as [d0 k0 n0]. simpl. rewrite put_same by exact Hr. reflexivity.
  - apply Forall_cons in Hmiss as [Hdraw Hmiss]. simpl in Hdraw.
    pose proof Hwf as (Hq & Hk & Hi).
    destruct (Hi _ _ Hr) as (Hlen & Hkn & Hmax).
    assert (is_Some (sessionToSessionLock s !! id)) as [m Hm].
    { apply same_keys_lookup; eauto. }
    assert (len ((draw, v) :: dvs) = 1 + len dvs) as Hl by (unfold len; simpl; lia).
    rewrite Hl in *. assert (0 <= len dvs) by (unfold len; lia).
    assert (0 <= n r) as Hn0 by (unfold len in Hlen; lia).
    assert (wrap_int (n r + 1) = n r + 1) as Hw.
    { apply wrap_int_small. unfold min_int, max_int in *. lia. }
    set (r1 := mkReservoir (data r) (k r) (n r + 1)).
    assert (serve (Add draw id v) s = Returns (Added nil_error) (put id r1 s)) as Hstep.
    { unfold serve, api.AddInteger, mbind, M_bind, bind.
      rewrite (update_found _ _ _ _ _ _ Hq Hm Hr), Hw.
      destruct (n r + 1 <=? 0) eqn:E; [lia|].
      pose proof (Z.mod_pos_bound draw (n r + 1) ltac:(lia)) as Hmod.
      destruct (draw mod (n r + 1) <? k r) eqn:E'; [|reflexivity].
      apply Z.ltb_lt in E'. destruct Hdraw as [Hk0 | Hin]; [lia|].
      rewrite Z.mod_small in E' by lia. lia. }
    assert (wf (put id r1 s)) as Hwf1.
    { eapply put_wf; eauto. unfold capacity_inv, r1. simpl. lia. }
    assert (sessionToReservoir (put id r1 s) !! id = Some r1) as Hr1.
    { rewrite put_lookup. case_decide; congruence. }
    assert (Forall (fun dv => k r1 = 0 \/ k r1 <= fst dv <= n r1) dvs) as Hmiss1.
    { eapply Forall_impl; [exact Hmiss|]. intros dv Hdv. simpl in *. lia. }
    specialize (IH (put id r1 s) r1 Hwf1 Hr1 Hmiss1 ltac:(simpl; lia)).
    simpl List.map. rewrite (serve_all_step _ _ _ _ _ _ _ Hstep IH).
    rewrite put_put. simpl. do 3 f_equal. lia.
Qed.

Lemma add_many id draw v m s r :
  wf s ->
  sessionToReservoir s !! id = Some r ->
  k r <= draw <= n r ->
  n r + Z.of_nat m <= max_int ->
  serve_all (repeat (Add draw id v) m) s =
  Returns (repeat (Added nil_error) m)
    (put id (mkReservoir (data r) (k r) (n r + Z.of_nat m)) s).
Proof.
  intros Hwf Hr Hdraw Hbound.
  pose proof (add_misses id (repeat (draw, v) m) s r Hwf Hr) as H.
  rewrite !List.map_repeat in H. unfold len in H. rewrite repeat_length in H.
  apply H; [|exact Hbound].
  apply Forall_forall. intros dv Hin. apply list_elem_of_In in Hin.
  apply repeat_spec in Hin. subst. right. exact Hdraw.
Qed.

(** At the largest [int] the increment wraps and [rand.Intn] panics. *)
Lemma update_at_top draw id v s r :
  wf s ->
  sessionToReservoir s !! id = Some r ->
  n r = max_int ->
  AtomicUpdateReservoir draw id v s = Panics.
Proof.
  intros (Hq & Hk & _) Hr Hn.
  assert (is_Some (sessionToSessionLock s !! id)) as [m Hm].
  { apply same_keys_lookup; eauto. }
  rewrite (update_found _ _ _ _ _ _ Hq Hm Hr), Hn, wrap_int_overflow. reflexivity.
Qed.



Lemma not_present_none s id : ~ present s id <-> sessionToReservoir s !! id = None.
Proof.
  unfold present. rewrite <- eq_None_not_Some. reflexivity.
Qed.

Lemma not_found_unknown s id :
  wf s -> ~ present s id ->
  (forall draw v, AtomicUpdateReservoir draw id v s = Returns (NotFound id) s) /\
  AtomicEndReservoirSession id s = Returns ([], NotFound id) s.
Proof.
  intros (Hq & Hk & Hi) Hnp. apply not_present_none in Hnp.
  apply same_keys_none in Hnp; [|exact Hk].
  split; [intros draw v; apply update_not_found | apply end_not_found]; exact Hnp.
Qed.






(** ** The identifier allocator, run sequentially *)

Lemma allocator_eq s :
  AtomicGetSessionIDAndIncrement s =
  Returns (nextSessionID s) (set_nextSessionID (wrap_uint64 (nextSessionID s + 1)) s).
Proof. reflexivity. Qed.

Lemma serve_began rq s id s' :
  serve rq s = Returns (Began id) s' -> is_begin rq = true.
Proof.
  destruct rq as [initial | draw id0 v | id0]; [reflexivity | |]; intros H.
  - apply serve_add in H as (e & _ & [=]).
  - apply serve_end in H as (sample & e & _ & [=]).
Qed.

Lemma began_cons r rs :
  began (r :: rs) =
  match r with Began id => id :: began rs | _ => began rs end.
Proof. destruct r; reflexivity. Qed.

(** The identifiers a trace hands out are consecutive, from the counter on,
    until the counter has gone through all of [uint64]. *)
Lemma began_sequence rqs : forall s rs s',
  wf s -> 0 <= nextSessionID s <= max_uint64 -> Forall sendable rqs ->
  serve_all rqs s = Returns rs s' ->
  nextSessionID s + begins rqs <= max_uint64 + 1 ->
  began rs = List.map (fun i => nextSessionID s + Z.of_nat i)
               (seq 0 (Z.to_nat (begins rqs))) /\
  nextSessionID s' = wrap_uint64 (nextSessionID s + begins rqs).
Proof.
  induction rqs as [|rq rqs IH]; intros s rs s' Hwf Hc0 Hok Hrun Hbound.
  - injection Hrun as <- <-. unfold begins, len. simpl.
    split; [reflexivity|]. rewrite Z.add_0_r. symmetry.
    apply wrap_uint64_small. exact Hc0.
  - apply serve_all_cons in Hrun as (r & s1 & rs' & Hr & Hrs & ->).
    apply Forall_cons in Hok as [Hrq Hrqs].
    rewrite begins_cons in *. pose proof (begins_nonneg rqs) as Hnn.
    destruct (serve_counter _ _ _ _ Hwf Hr) as (Hc & Hid & _).
    pose proof (serve_wf _ _ _ _ Hwf Hrq Hr) as Hwf1.
    destruct (is_begin rq) eqn:Hb.
    + destruct (IH s1 rs' s' Hwf1) as [Hbegan Hc']; auto.
      { rewrite Hc. apply wrap_uint64_range. }
      { rewrite Hc. destruct (Z.eq_dec (nextSessionID s) max_uint64) as [E|E].
        - rewrite E, wrap_uint64_overflow. lia.
        - rewrite wrap_uint64_small by lia. lia. }
      assert (exists id, r = Began id) as [id ->].
      { destruct rq; try discriminate. apply serve_begin in Hr as (id & _ & ->). eauto. }
      destruct (Hid _ eq_refl) as [-> _].
      split.
      * replace (Z.to_nat (1 + begins rqs)) with (S (Z.to_nat (begins rqs))) by lia.
        rewrite began_cons. simpl seq. simpl List.map. rewrite Z.add_0_r. f_equal.
        rewrite Hbegan, <- seq_shift, List.map_map.
        apply List.map_ext_in. intros i Hi. apply in_seq in Hi.
        rewrite Hc, wrap_uint64_small by lia. lia.
      * rewrite Hc', Hc, wrap_uint64_add. f_equal. lia.
    + destruct (IH s1 rs' s' Hwf1) as [Hbegan Hc']; auto; try (rewrite Hc; lia).
      rewrite Hc in *. rewrite Z.add_0_l.
      split; [|exact Hc'].
      rewrite began_cons.
      destruct r as [id | e | sample e]; [|exact Hbegan|exact Hbegan].
      apply serve_began in Hr. congruence.
Qed.

(** C8, as the code has it. The counter starts at 1; the allocator returns
    its value and leaves it incremented (modulo 2^64). In a sequential trace
    from start-up that begins at most 2^64 - 1 sessions, the identifiers
    handed out are 1, 2, 3, ... in this order: the first is 1 and each is
    greater than all the ones before it. *)
Theorem C8_identifiers_increase (rqs : list request) (rs : list response)
    (s : ReservoirState) :
  Forall sendable rqs ->
  serve_all rqs NewReservoirState = Returns rs s ->
  begins rqs <= max_uint64 ->
  nextSessionID NewReservoirState = 1 /\
  AtomicGetSessionIDAndIncrement s =
    Returns (nextSessionID s) (set_nextSessionID (wrap_uint64 (nextSessionID s + 1)) s) /\
  began rs = List.map (fun i => 1 + Z.of_nat i) (seq 0 (Z.to_nat (begins rqs))) /\
  (forall i j a b, (i < j)%nat ->
     nth_error (began rs) i = Some a -> nth_error (began rs) j = Some b -> a < b) /\
  nextSessionID s = wrap_uint64 (1 + begins rqs).
Proof.
  intros Hok Hrun Hbound.
  destruct (began_sequence rqs NewReservoirState rs s wf_initial) as [Hbegan Hc]; auto.
  { simpl. unfold max_uint64. lia. }
  { simpl. lia. }
  simpl nextSessionID in Hbegan, Hc.
  split; [reflexivity|]. split; [apply allocator_eq|].
  split; [exact Hbegan|]. split; [|exact Hc].
  intros i j a b Hij Ha Hb. rewrite Hbegan in Ha, Hb.
  rewrite nth_error_map, nth_error_seq in Ha, Hb.
  destruct (Nat.ltb i _); [|discriminate]. destruct (Nat.ltb j _); [|discriminate].
  simpl in Ha, Hb. injection Ha as <-. injection Hb as <-. lia.
Qed.

(** Witness for C8: three sessions, with an update and an end between. *)
Lemma C8_identifiers_increase_witness :
  began [Began 1; Added nil_error; Began 2; Ended [1; 99; 3] nil_error; Began 3]
  = [1; 2; 3].
Proof.
  refine (proj1 (proj2 (proj2 (C8_identifiers_increase
    [Begin [1; 2; 3]; Add 1 1 99; Begin []; End_ 1; Begin [7]]
    [Began 1; Added nil_error; Began 2; Ended [1; 99; 3] nil_error; Began 3]
    _ _ _ _)))).
  - repeat constructor; vm_compute; discriminate.
  - vm_compute. reflexivity.
  - vm_compute. discriminate.
Defined.

(** C8 as stated fails when the counter wraps round: after 2^64 - 1
    creations, the first of which got 1, the next creation gets 0. *)
Lemma C8_counter_wraps :
  exists rs s s',
    serve_all (Begin [] :: repeat (Begin []) (Z.to_nat (max_uint64 - 1)))
      NewReservoirState = Returns (Began 1 :: rs) s /\
    serve (Begin []) s = Returns (Began 0) s'.
Proof.
  pose proof (serve_begin_eq [] NewReservoirState wf_initial) as H0.
  simpl nextSessionID in H0. set (s1 := mkReservoirState _ _ _ _ _) in H0.
  assert (wf s1) as Hwf1.
  { refine (serve_wf (Begin []) _ _ _ wf_initial _ H0). vm_compute. discriminate. }
  destruct (begin_many [] (Z.to_nat (max_uint64 - 1)) s1 Hwf1)
    as (rs & s & Hrun & Hwf & Hc).
  { vm_compute. discriminate. }
  { vm_compute. split; discriminate. }
  rewrite Z2Nat.id in Hc by (vm_compute; discriminate).
  change (wrap_uint64 (nextSessionID s1 + (max_uint64 - 1))) with 0 in Hc.
  pose proof (serve_begin_eq [] s Hwf) as Hb. rewrite Hc in Hb.
  exists rs, s. eexists.
  split; [exact (serve_all_step _ _ _ _ _ _ _ H0 Hrun) | exact Hb].
Qed.

(** ** Sessions with an empty reservoir, and the draw *)

(** C7, as the code has it. A session begun with the empty sequence has
    [k = 0] and no data. Its next updates, up to 2^63 - 1 of them, all
    return without error whatever [rand.Intn] yields, leave the data empty
    and add one to [n] each; [EndSession] then returns the empty sequence. *)
Theorem C7_empty_reservoir (s : ReservoirState) (dvs : list (Z * Z)) :
  reachable s ->
  Forall (fun dv => 0 <= fst dv) dvs ->
  len dvs <= max_int ->
  exists id s0 s1,
    AtomicCreateReservoir [] s = Returns id s0 /\
    sessionToReservoir s0 !! id = Some (mkReservoir [] 0 0) /\
    serve_all (List.map (fun dv => Add (fst dv) id (snd dv)) dvs) s0
      = Returns (List.map (fun _ => Added nil_error) dvs)
          (put id (mkReservoir [] 0 (len dvs)) s0) /\
    AtomicEndReservoirSession id (put id (mkReservoir [] 0 (len dvs)) s0)
      = Returns ([], nil_error) s1.
Proof.
  intros Hreach Hdraws Hbound. pose proof (reachable_wf _ Hreach) as Hwf.
  pose proof Hwf as ((H1 & H2 & Hz) & Hk & Hi).
  pose proof (create_eq [] s H1 H2) as Hc. set (s0 := mkReservoirState _ _ _ _ _) in Hc.
  assert (wf s0) as Hwf0.
  { eapply create_wf; [exact Hwf | | exact Hc]. vm_compute. discriminate. }
  assert (sessionToReservoir s0 !! nextSessionID s = Some (mkReservoir [] 0 0)) as Hr0.
  { subst s0. simpl. apply lookup_insert_eq. }
  assert (Forall (fun dv : Z * Z =>
                    k (mkReservoir [] 0 0) = 0 \/
                    k (mkReservoir [] 0 0) <= fst dv <= n (mkReservoir [] 0 0)) dvs)
    as Hmiss.
  { eapply Forall_impl; [exact Hdraws|]. intros dv _. left. reflexivity. }
  pose proof (add_misses (nextSessionID s) dvs s0 _ Hwf0 Hr0 Hmiss Hbound) as Hrun.
  simpl in Hrun.
  set (s' := put (nextSessionID s) (mkReservoir [] 0 (len dvs)) s0) in *.
  assert (wf s') as Hwf'.
  { eapply put_wf; eauto. unfold capacity_inv, len. simpl. unfold len in Hbound. lia. }
  exists (nextSessionID s), s0. eexists.
  split; [exact Hc|]. split; [exact Hr0|]. split; [exact Hrun|].
  destruct Hwf' as (Hq' & _).
  rewrite (end_found _ s' sync.zero (mkReservoir [] 0 (len dvs)) Hq').
  - reflexivity.
  - subst s' s0. simpl. apply lookup_insert_eq.
  - subst s'. rewrite put_lookup. case_decide; congruence.
Qed.

(** Witness for C7: [Begin([])] at start-up, then three updates. *)
Lemma C7_empty_reservoir_witness :
  exists id s0 s1,
    AtomicCreateReservoir [] NewReservoirState = Returns id s0 /\
    sessionToReservoir s0 !! id = Some (mkReservoir [] 0 0) /\
    serve_all [Add 0 id 5; Add 1 id 6; Add 0 id 7] s0
      = Returns [Added nil_error; Added nil_error; Added nil_error]
          (put id (mkReservoir [] 0 3) s0) /\
    AtomicEndReservoirSession id (put id (mkReservoir [] 0 3) s0)
      = Returns ([], nil_error) s1.
Proof.
  apply (C7_empty_reservoir NewReservoirState [(0, 5); (1, 6); (0, 7)]
           reachable_initial).
  - repeat constructor; simpl; lia.
  - vm_compute. discriminate.
Defined.

(** C7 as stated fails at the top of [int]: in a session begun with the
    empty sequence, 2^63 - 1 updates return, and the next one panics in
    [rand.Intn]. *)
Lemma C7_update_overflows :
  exists s0 s1,
    AtomicCreateReservoir [] NewReservoirState = Returns 1 s0 /\
    serve_all (repeat (Add 0 1 7) (Z.to_nat max_int)) s0
      = Returns (repeat (Added nil_error) (Z.to_nat max_int)) s1 /\
    AtomicUpdateReservoir 0 1 7 s1 = Panics.
Proof.
  pose proof (create_eq [] NewReservoirState eq_refl eq_refl) as Hc.
  simpl nextSessionID in Hc. set (s0 := mkReservoirState _ _ _ _ _) in Hc.
  assert (wf s0) as Hwf0.
  { eapply create_wf; [exact wf_initial | | exact Hc]. vm_compute. discriminate. }
  assert (sessionToReservoir s0 !! 1 = Some (mkReservoir [] 0 0)) as Hr0 by reflexivity.
  set (s1 := put 1 (mkReservoir [] 0 max_int) s0).
  assert (serve_all (repeat (Add 0 1 7) (Z.to_nat max_int)) s0
          = Returns (repeat (Added nil_error) (Z.to_nat max_int)) s1) as Hrun.
  { pose proof (add_many 1 0 7 (Z.to_nat max_int) s0 _ Hwf0 Hr0) as H.
    rewrite Z2Nat.id in H by (vm_compute; discriminate).
    apply H; [split; apply Z.le_refl | apply Z.le_refl]. }
  assert (wf s1) as (Hq1 & _).
  { eapply put_wf; eauto. unfold capacity_inv, len. simpl. unfold max_int. lia. }
  exists s0, s1. split; [exact Hc|]. split; [exact Hrun|].
  rewrite (update_found 0 1 7 s1 sync.zero (mkReservoir [] 0 max_int) Hq1);
    reflexivity.
Qed.




(** ** Begin *)

Lemma begin_session_eq initial s :
  wf s ->
  api.BeginSession initial s =
  Returns (nextSessionID s, nil_error)
    (mkReservoirState
       (<[nextSessionID s := mkReservoir initial (len initial) (len initial)]>
          (sessionToReservoir s))
       sync.zero
       (<[nextSessionID s := sync.zero]> (sessionToSessionLock s))
       sync.zero
       (wrap_uint64 (nextSessionID s + 1))).
Proof.
  intros ((H1 & H2 & _) & _).
  unfold api.BeginSession, mbind, M_bind, bind.
  rewrite create_eq by assumption. reflexivity.
Qed.

Lemma process_begin_eq req w s :
  wf s ->
  exists s',
    server.JobBeginSession_Process req w s =
    Returns (http.Write (http.JsonSessionID (nextSessionID s))
               (http.WriteHeader http.StatusOK w), nil_error) s'.
Proof.
  intros Hwf. unfold server.JobBeginSession_Process, mbind, M_bind, bind.
  rewrite begin_session_eq by exact Hwf. eexists. reflexivity.
Qed.

(** C6, as the code has it. In the store and in the API, Begin has no
    failure mode: for every initial sequence, the empty one too, a session
    is created with [k = n = len(initial)] and its new identifier is
    returned with a nil error. The handler answers a decoded request with a
    sequence that is not empty by [200] and the identifier; it answers an
    empty sequence by [400 Bad Request]. *)
Theorem C6_begin (s : ReservoirState) (initial : list Z) (sid add : Z) :
  reachable s ->
  (exists s' r,
     api.BeginSession initial s = Returns (nextSessionID s, nil_error) s' /\
     sessionToReservoir s' !! nextSessionID s = Some r /\
     data r = initial /\ k r = len initial /\ n r = len initial) /\
  (initial <> [] ->
   exists s',
     server.beginHandler false (server.mkRequestData initial sid add) http.fresh s
     = Returns (http.mkResponseWriter (Some http.StatusOK)
                  [http.JsonSessionID (nextSessionID s)]) s') /\
  (initial = [] ->
   forall unmarshal_failed, exists w s',
     server.beginHandler unmarshal_failed (server.mkRequestData initial sid add)
       http.fresh s = Returns w s' /\
     http.status w = Some http.StatusBadRequest).
Proof.
  intros Hreach. pose proof (reachable_wf _ Hreach) as Hwf.
  split; [|split].
  - rewrite begin_session_eq by exact Hwf. do 2 eexists.
    split; [reflexivity|]. simpl. rewrite lookup_insert_eq.
    repeat split; reflexivity.
  - intros Hne. unfold server.beginHandler. simpl server.Reservoir_.
    destruct (len initial =? server.MISSING_INPUT_RESERVOIR) eqn:E.
    { apply Z.eqb_eq in E. destruct initial; [congruence|].
      unfold len, server.MISSING_INPUT_RESERVOIR in E. simpl in E. lia. }
    unfold mbind, M_bind, bind.
    destruct (process_begin_eq (server.mkRequestData initial sid add) http.fresh s Hwf)
      as [s' ->].
    exists s'. reflexivity.
  - intros -> failed. unfold server.beginHandler. simpl server.Reservoir_.
    change (len [] =? server.MISSING_INPUT_RESERVOIR) with true. cbv iota.
    unfold mbind, M_bind, bind.
    match goal with
    | |- context [server.JobBeginSession_Process ?req ?w s] =>
      destruct (process_begin_eq req w s Hwf) as [s' ->]
    end.
    do 2 eexists. split; [reflexivity|]. destruct failed; reflexivity.
Qed.

(** Witness for C6: [Begin([1,2,3])] at start-up is answered [200] with
    identifier 1. *)
Lemma C6_begin_witness :
  exists s',
    server.beginHandler false (server.mkRequestData [1; 2; 3] 0 0) http.fresh
      NewReservoirState
    = Returns (http.mkResponseWriter (Some 200) [http.JsonSessionID 1]) s'.
Proof.
  refine (proj1 (proj2 (C6_begin NewReservoirState [1; 2; 3] 0 0 reachable_initial)) _).
  discriminate.
Defined.

(** C6 as stated fails in the handler: [Begin([])] is answered
    [400 Bad Request], "Missing input". *)
Lemma C6_empty_is_bad_request :
  exists w s',
    server.beginHandler false (server.mkRequestData [] 0 0) http.fresh
      NewReservoirState = Returns w s' /\
    http.status w = Some http.StatusBadRequest /\
    head (http.body w)
      = Some (http.Text "Missing input: initial K integers for reservoir.").
Proof. do 2 eexists. split; [reflexivity|]. split; reflexivity. Qed.

(** ** Goroutines *)

Import interleaving.

(** A creator that runs alone does what the sequential call does. *)
Lemma create_alone reservoir s :
  sessionToReservoirLock s = sync.zero ->
  sessionToSessionLockLock s = sync.zero ->
  exists id s',
    AtomicCreateReservoir reservoir s = Returns id s' /\
    run create_step (repeat 0%nat 8) ([C_load reservoir], s)
    = Some ([C_returned id], s').
Proof.
  destruct s as [rs l1 ls l2 c]. simpl. intros -> ->.
  do 2 eexists. split; reflexivity.
Qed.

Ltac alone_steps Hm Hr :=
  unfold run, move;
  repeat (progress (simpl; unfold deref, assign; simpl;
                    rewrite ?Hm, ?Hr, ?lookup_insert_eq)).

(** An updater that runs alone does what the sequential call does: it
    returns the same error and leaves the same state, or crashes where the
    call panics. *)
Lemma update_alone draw id v s :
  quiescent s ->
  match AtomicUpdateReservoir draw id v s with
  | Returns e s' =>
    exists sched f,
      run update_step sched ([start_update draw id v], s) = Some ([(U_returned e, f)], s')
  | Panics =>
    exists sched f s',
      run update_step sched ([start_update draw id v], s) = Some ([(U_crashed, f)], s')
  | Blocks => False
  end.
Proof.
  intros Hq.
  destruct (sessionToSessionLock s !! id) as [m|] eqn:Hm.
  2:{ rewrite update_not_found by exact Hm.
      exists [0%nat]. eexists. unfold run, move. simpl. rewrite Hm. reflexivity. }
  pose proof Hq as (H1 & H2 & Hz). pose proof (Hz _ _ Hm) as ->.
  destruct s as [rs l1 ls l2 c]. simpl in *. subst l1 l2.
  destruct (rs !! id) as [r|] eqn:Hr.
  - rewrite (update_found _ _ _ _ _ _ Hq Hm Hr).
    destruct (wrap_int (n r + 1) <=? 0) eqn:E1;
      [|destruct (draw mod wrap_int (n r + 1) <? k r) eqn:E2;
        [destruct (store_index (data r) (draw mod wrap_int (n r + 1)) v)
           as [d|] eqn:E3|]].
    + exists (repeat 0%nat 8). do 2 eexists.
      alone_steps Hm Hr. rewrite E1. reflexivity.
    + exists (repeat 0%nat 11). eexists.
      alone_steps Hm Hr. rewrite E1. alone_steps Hm Hr. rewrite E2.
      alone_steps Hm Hr. rewrite E3. alone_steps Hm Hr.
      unfold put, set_sessionToReservoir. simpl. rewrite insert_insert_eq. reflexivity.
    + exists (repeat 0%nat 10). do 2 eexists.
      alone_steps Hm Hr. rewrite E1. alone_steps Hm Hr. rewrite E2.
      alone_steps Hm Hr. rewrite E3. reflexivity.
    + exists (repeat 0%nat 10). eexists.
      alone_steps Hm Hr. rewrite E1. alone_steps Hm Hr. rewrite E2.
      alone_steps Hm Hr. reflexivity.
  - assert (AtomicUpdateReservoir draw id v (mkReservoirState rs sync.zero ls sync.zero c)
            = Panics) as ->.
    { go_unfold. simpl. rewrite Hm. simpl. rewrite Hr. reflexivity. }
    exists (repeat 0%nat 6). do 2 eexists. alone_steps Hm Hr. reflexivity.
Qed.

(** C5. Two goroutines create a session each at start-up. Both load the
    counter before either adds to it, and both return identifier 1; the
    store is left with one session, the second reservoir under the
    identifier of the first. *)
Theorem C5_duplicate_identifier :
  run create_step [0; 1; 0; 1; 0; 0; 0; 0; 0; 0; 1; 1; 1; 1; 1; 1]%nat
    ([C_load [10; 20]; C_load [30]], NewReservoirState)
  = Some ([C_returned 1; C_returned 1],
          mkReservoirState {[1 := mkReservoir [30] 1 1]} sync.zero
            {[1 := sync.zero]} sync.zero 3).
Proof. vm_compute. reflexivity. Qed.

(** C4. Two goroutines update session 1, which has [n = 3]. Each locks its
    own copy of the session mutex, so both are between [Lock] and [Unlock]
    at the same time; both load [n = 3] and both store 4. Both return
    without error and [n] is 4, not 5: one increment is lost. Run one after
    the other, the same two calls leave [n = 5]. *)
Theorem C4_lost_update :
  let s0 := mkReservoirState {[1 := mkReservoir [1; 2; 3] 3 3]} sync.zero
              {[1 := sync.zero]} sync.zero 2 in
  let pool0 := [start_update 1 1 99; start_update 3 1 77] in
  exists pool1 s1 pool2 s2,
    run update_step [0; 0; 0; 0; 0; 0; 1; 1; 1; 1; 1; 1]%nat (pool0, s0)
      = Some (pool1, s1) /\
    forallb in_flight pool1 = true /\
    run update_step [0; 1; 0; 1; 0; 1; 0; 1; 0]%nat (pool1, s1) = Some (pool2, s2) /\
    List.map fst pool2 = [U_returned nil_error; U_returned nil_error] /\
    sessionToReservoir s2 !! 1 = Some (mkReservoir [1; 99; 3] 3 4) /\
    exists pool3 s3,
      run update_step (repeat 0%nat 11 ++ repeat 1%nat 10) (pool0, s0)
        = Some (pool3, s3) /\
      List.map fst pool3 = [U_returned nil_error; U_returned nil_error] /\
      sessionToReservoir s3 !! 1 = Some (mkReservoir [1; 99; 3] 3 5).
Proof.
  intros s0 pool0. subst s0 pool0. do 4 eexists.
  split; [vm_compute; reflexivity|]. split; [vm_compute; reflexivity|].
  split; [vm_compute; reflexivity|]. split; [vm_compute; reflexivity|].
  split; [vm_compute; reflexivity|].
  do 2 eexists. split; [vm_compute; reflexivity|].
  split; vm_compute; reflexivity.
Qed.

(** An ender that runs alone does what the sequential call does. *)
Lemma end_alone id s :
  quiescent s ->
  match AtomicEndReservoirSession id s with
  | Returns (d, e) s' =>
    exists sched f,
      run end_step sched ([start_end id], s) = Some ([(E_returned d e, f)], s')
  | Panics =>
    exists sched f s',
      run end_step sched ([start_end id], s) = Some ([(E_crashed, f)], s')
  | Blocks => False
  end.
Proof.
  intros Hq.
  destruct (sessionToSessionLock s !! id) as [m|] eqn:Hm.
  2:{ rewrite end_not_found by exact Hm.
      exists [0%nat]. eexists. unfold run, move. simpl. rewrite Hm. reflexivity. }
  pose proof Hq as (H1 & H2 & Hz). pose proof (Hz _ _ Hm) as ->.
  destruct s as [rs l1 ls l2 c]. simpl in *. subst l1 l2.
  destruct (rs !! id) as [r|] eqn:Hr.
  - rewrite (end_found _ _ _ _ Hq Hm Hr).
    exists (repeat 0%nat 11). eexists. unfold run, move. simpl. rewrite Hm. simpl.
    rewrite Hr. simpl. reflexivity.
  - assert (AtomicEndReservoirSession id (mkReservoirState rs sync.zero ls sync.zero c)
            = Panics) as ->.
    { go_unfold. simpl. rewrite Hm. simpl. rewrite Hr. reflexivity. }
    exists (repeat 0%nat 5). do 2 eexists. unfold run, move. simpl. rewrite Hm. simpl.
    rewrite Hr. simpl. reflexivity.
Qed.

(** C9. Two goroutines create a session each and a third ends session 1.
    The two creators load the counter before either adds to it, so both
    take identifier 1. The first creation completes; the end deletes the
    reservoir of session 1; the second creation then stores its reservoir
    and its lock under 1; the end deletes the lock. All three calls have
    returned, no transition is in flight, and the reservoir map holds
    session 1 while the lock map is empty: the key sets differ, and stay
    so. *)
Theorem C9_key_sets_diverge :
  exists pool state,
    run store_step
      ([0; 1; 0; 1] ++ repeat 0 6 ++ repeat 2 8 ++ repeat 1 6 ++ repeat 2 3)%nat
      ([G_create (C_load [10; 20]); G_create (C_load [30]); G_end (start_end 1)],
       NewReservoirState)
    = Some (pool, state) /\
    List.map returned pool
    = [Some (inl 1); Some (inl 1); Some (inr ([10; 20], nil_error))] /\
    state = mkReservoirState {[1 := mkReservoir [30] 1 1]} sync.zero ∅ sync.zero 3 /\
    dom (sessionToReservoir state) <> dom (sessionToSessionLock state) /\
    AtomicUpdateReservoir 0 1 5 state = Returns (NotFound 1) state /\
    AtomicEndReservoirSession 1 state = Returns ([], NotFound 1) state.
Proof.
  do 2 eexists. split; [vm_compute; reflexivity|].
  split; [vm_compute; reflexivity|]. split; [reflexivity|].
  split; [|split; vm_compute; reflexivity].
  intros H.
  match type of H with
  | dom ?rs = dom ?ls => assert (is_Some (ls !! 1)) as [m Hm]
  end.
  { apply elem_of_dom. rewrite <- H. apply elem_of_dom. eexists.
    vm_compute. reflexivity. }
  vm_compute in Hm. discriminate.
Qed.

(** * Further properties *)

(** ** Further properties of the store *)

(** X1. [EndSession] on a session of a store at rest returns the data the
    session holds at that moment, with no error; it removes that session
    from both maps and changes no other session, no other lock and not the
    identifier counter. *)
Theorem end_returns_current_data (s : ReservoirState) (id : Z) (r : Reservoir) :
  wf s ->
  sessionToReservoir s !! id = Some r ->
  exists s',
    AtomicEndReservoirSession id s = Returns (data r, nil_error) s' /\
    sessionToReservoir s' !! id = None /\
    sessionToSessionLock s' !! id = None /\
    (forall id', id' <> id ->
       sessionToReservoir s' !! id' = sessionToReservoir s !! id' /\
       sessionToSessionLock s' !! id' = sessionToSessionLock s !! id') /\
    nextSessionID s' = nextSessionID s /\
    wf s'.
Proof.
  intros Hwf Hr. pose proof Hwf as (Hq & Hk & Hi).
  assert (is_Some (sessionToSessionLock s !! id)) as [m Hm].
  { apply same_keys_lookup; eauto. }
  pose proof (end_found _ _ _ _ Hq Hm Hr) as Hrun.
  eexists. split; [exact Hrun|]. simpl.
  split; [apply lookup_delete_eq|]. split; [apply lookup_delete_eq|].
  split; [|split; [reflexivity | exact (end_wf _ _ _ _ Hwf Hrun)]].
  intros id' Hne. split; apply lookup_delete_ne; congruence.
Qed.

(** Witness for X1: session 1 of the scenario. *)
Lemma end_returns_current_data_witness :
  exists s',
    AtomicEndReservoirSession 1
      (mkReservoirState {[1 := mkReservoir [1; 2; 3] 3 3]} sync.zero
         {[1 := sync.zero]} sync.zero 2)
    = Returns ([1; 2; 3], nil_error) s'.
Proof.
  destruct (end_returns_current_data _ 1 (mkReservoir [1; 2; 3] 3 3)
              (reachable_wf _ reachable_123) ltac:(reflexivity))
    as (s' & H & _).
  exists s'. exact H.
Defined.

(** X2. Round trip: a session created with [initial] and ended at once
    gives [initial] back, and the store is the one before the creation with
    the identifier counter moved on by one, when the counter value was not in
    use. *)
Theorem begin_end_round_trip (s : ReservoirState) (initial : list Z) :
  wf s ->
  ~ present s (nextSessionID s) ->
  exists s1,
    AtomicCreateReservoir initial s = Returns (nextSessionID s) s1 /\
    AtomicEndReservoirSession (nextSessionID s) s1
    = Returns (initial, nil_error)
        (set_nextSessionID (wrap_uint64 (nextSessionID s + 1)) s).
Proof.
  intros Hwf Hnp. pose proof Hwf as ((H1 & H2 & Hz) & Hk & Hi).
  apply not_present_none in Hnp.
  pose proof (proj2 (same_keys_none s _ Hk) Hnp) as Hnl.
  pose proof (create_eq initial s H1 H2) as Hc.
  set (s1 := mkReservoirState _ _ _ _ _) in Hc.
  exists s1. split; [exact Hc|].
  assert (quiescent s1) as Hq1.
  { repeat split. intros id m. simpl. rewrite lookup_insert.
    case_decide; [congruence | apply Hz]. }
  rewrite (end_found _ s1 sync.zero
             (mkReservoir initial (len initial) (len initial)) Hq1);
    [|subst s1; simpl; apply lookup_insert_eq..].
  subst s1. unfold set_sessionToSessionLock, set_sessionToReservoir, set_nextSessionID.
  simpl. rewrite !delete_insert_id by assumption.
  destruct s; simpl in *. subst. reflexivity.
Qed.

(** Witness for X2: a first session at start-up. *)
Lemma begin_end_round_trip_witness :
  exists s1,
    AtomicCreateReservoir [4; 5] NewReservoirState = Returns 1 s1 /\
    AtomicEndReservoirSession 1 s1
    = Returns ([4; 5], nil_error) (set_nextSessionID 2 NewReservoirState).
Proof.
  apply (begin_end_round_trip NewReservoirState [4; 5] wf_initial).
  intros [r Hr]. simpl in Hr. rewrite lookup_empty in Hr. discriminate.
Defined.

(** X3. While the identifier counter has not wrapped, a creation takes an
    identifier that no session has and leaves every session there is exactly
    as it was; afterwards the sessions are the old ones and the new one. *)
Theorem create_keeps_live_sessions (s : ReservoirState) (initial : list Z) :
  wf s ->
  unwrapped s ->
  exists s',
    AtomicCreateReservoir initial s = Returns (nextSessionID s) s' /\
    ~ present s (nextSessionID s) /\
    (forall id r, sessionToReservoir s !! id = Some r ->
                  sessionToReservoir s' !! id = Some r) /\
    (forall id, present s' id <-> present s id \/ id = nextSessionID s).
Proof.
  intros Hwf [Hrange Hkeys]. pose proof Hwf as ((H1 & H2 & Hz) & Hk & Hi).
  rewrite create_eq by assumption. eexists. split; [reflexivity|].
  assert (~ present s (nextSessionID s)) as Hfresh.
  { intros Hp. specialize (Hkeys _ Hp). lia. }
  split; [exact Hfresh|]. simpl. split.
  - intros id r Hr. rewrite lookup_insert_ne; [exact Hr|].
    intros <-. apply Hfresh. exists r. exact Hr.
  - intros id. unfold present. simpl. rewrite lookup_insert.
    case_decide as E.
    + split; [auto | intros _; eauto].
    + split; [auto | intros [H | H]; [exact H | congruence]].
Qed.

(** Witness for X3: the start-up state. *)
Lemma create_keeps_live_sessions_witness :
  exists s',
    AtomicCreateReservoir [9] NewReservoirState = Returns 1 s' /\
    ~ present NewReservoirState 1.
Proof.
  destruct (create_keeps_live_sessions NewReservoirState [9] wf_initial unwrapped_initial)
    as (s' & H & Hf & _).
  exists s'. split; [exact H | exact Hf].
Defined.

Lemma values_added_cons id rq rqs :
  values_added id (rq :: rqs) =
  match rq with
  | Add _ id0 v => if decide (id0 = id) then v :: values_added id rqs
                   else values_added id rqs
  | _ => values_added id rqs
  end.
Proof.
  destruct rq as [l | d id0 v | id0]; try reflexivity.
  unfold values_added. simpl. destruct (decide (id0 = id)); reflexivity.
Qed.

(** A session through a trace of updates. *)
Lemma adds_trace id rqs : forall s r rs s',
  wf s ->
  sessionToReservoir s !! id = Some r ->
  Forall is_add rqs ->
  serve_all rqs s = Returns rs s' ->
  exists r',
    sessionToReservoir s' !! id = Some r' /\
    k r' = k r /\
    n r' = n r + len (values_added id rqs) /\
    length (data r') = length (data r) /\
    (forall i x, data r' !! i = Some x ->
                 data r !! i = Some x \/ In x (values_added id rqs)).
Proof.
  induction rqs as [|rq rqs IH]; intros s r rs s' Hwf Hr Hadds Hrun.
  - injection Hrun as <- <-. exists r. unfold len. simpl.
    repeat split; auto; lia.
  - apply serve_all_cons in Hrun as (r1 & s1 & rs' & Hstep & Hrest & ->).
    apply Forall_cons in Hadds as [Hadd Hadds].
    destruct rq as [l | draw id0 v | id0]; try contradiction.
    rewrite values_added_cons.
    apply serve_add in Hstep as (e & Hstep & ->).
    pose proof (update_wf _ _ _ _ _ _ Hwf Hstep) as Hwf1.
    destruct (update_returns _ _ _ _ _ _ Hwf Hstep)
      as [(_ & -> & Hnone) | (r0 & d & _ & Hr0 & _ & -> & Hd)].
    + destruct (decide (id0 = id)) as [->|Hne]; [congruence|].
      eapply IH; eauto.
    + destruct (decide (id0 = id)) as [->|Hne].
      * assert (r0 = r) as -> by congruence.
        set (r1 := mkReservoir d (k r) (n r + 1)) in *.
        assert (sessionToReservoir (put id r1 s) !! id = Some r1) as Hr1.
        { rewrite put_lookup. case_decide; congruence. }
        destruct (IH _ r1 _ _ Hwf1 Hr1 Hadds Hrest)
          as (r' & Hr' & Hk' & Hn' & Hlen' & Hprov).
        exists r'. split; [exact Hr'|]. split; [exact Hk'|].
        split; [rewrite Hn'; unfold len; simpl; lia|].
        assert (length d = length (data r)) as Hld.
        { destruct Hd as [(_ & _ & ->) | (_ & ->)];
            [apply length_insert | reflexivity]. }
        split; [rewrite Hlen'; exact Hld|].
        intros i x Hx. destruct (Hprov i x Hx) as [Hin | Hin].
        -- simpl in Hin. destruct Hd as [(_ & _ & ->) | (_ & ->)]; [|auto].
           apply list_lookup_insert_Some in Hin as [(_ & <- & _) | (_ & Hin)].
           ++ right. left. reflexivity.
           ++ left. exact Hin.
        -- right. right. exact Hin.
      * assert (sessionToReservoir (put id0 (mkReservoir d (k r0) (n r0 + 1)) s) !! id
                = Some r) as Hr1.
        { rewrite put_lookup. case_decide; congruence. }
        eapply IH; eauto.
Qed.

(** X4. Provenance of the sample: after any sequence of updates of a
    session, served one after the other, [EndSession] returns a sample as
    long as the data the session had before them, in which every position
    holds either the value it held then or one of the values added since. *)
Theorem sample_provenance (s : ReservoirState) (id : Z) (r : Reservoir)
    (rqs : list request) (rs : list response) (s' : ReservoirState) :
  wf s ->
  sessionToReservoir s !! id = Some r ->
  Forall (is_add_to id) rqs ->
  serve_all rqs s = Returns rs s' ->
  exists sample s'',
    AtomicEndReservoirSession id s' = Returns (sample, nil_error) s'' /\
    length sample = length (data r) /\
    (forall i x, sample !! i = Some x ->
                 data r !! i = Some x \/ In x (values_added id rqs)).
Proof.
  intros Hwf Hr Hto Hrun.
  assert (Forall is_add rqs) as Hadds.
  { eapply Forall_impl; [exact Hto|]. intros [] H; simpl in *; tauto. }
  destruct (adds_trace id rqs s r rs s' Hwf Hr Hadds Hrun)
    as (r' & Hr' & _ & _ & Hlen & Hprov).
  pose proof (serve_all_wf rqs s rs s' Hwf) as Hwf'.
  assert (Forall sendable rqs) as Hok.
  { eapply Forall_impl; [exact Hadds|]. intros [] H; simpl in *; tauto. }
  specialize (Hwf' Hok Hrun). pose proof Hwf' as (Hq & Hk & _).
  assert (is_Some (sessionToSessionLock s' !! id)) as [m Hm].
  { apply same_keys_lookup; eauto. }
  exists (data r'). eexists. split; [exact (end_found _ _ _ _ Hq Hm Hr')|].
  split; [exact Hlen | exact Hprov].
Qed.

(** Witness for X4: session 1 of the scenario after [Add(1, 99)] with the
    variate 1 and [Add(1, 77)] with the variate 6, which both hit index 1. *)
Lemma sample_provenance_witness :
  exists sample s'',
    AtomicEndReservoirSession 1
      (put 1 (mkReservoir [1; 77; 3] 3 5)
         (mkReservoirState {[1 := mkReservoir [1; 2; 3] 3 3]} sync.zero
            {[1 := sync.zero]} sync.zero 2))
    = Returns (sample, nil_error) s'' /\
    length sample = 3%nat /\
    (forall i x, sample !! i = Some x ->
                 [1; 2; 3] !! i = Some x \/ In x [99; 77]).
Proof.
  exact (sample_provenance _ 1 (mkReservoir [1; 2; 3] 3 3) [Add 1 1 99; Add 6 1 77]
           [Added nil_error; Added nil_error] _ (reachable_wf _ reachable_123)
           ltac:(reflexivity) ltac:(repeat constructor)
           ltac:(vm_compute; reflexivity)).
Defined.

(** X5. Served one after the other, updates are all counted: after any
    sequence of updates [n] has grown by exactly the number of updates
    addressed to the session, and [k] is as it was; updates of other or of
    unknown sessions do not count. *)
Theorem sequential_updates_are_counted (s : ReservoirState) (id : Z) (r : Reservoir)
    (rqs : list request) (rs : list response) (s' : ReservoirState) :
  wf s ->
  sessionToReservoir s !! id = Some r ->
  Forall is_add rqs ->
  serve_all rqs s = Returns rs s' ->
  exists r',
    sessionToReservoir s' !! id = Some r' /\
    n r' = n r + len (values_added id rqs) /\
    k r' = k r.
Proof.
  intros Hwf Hr Hadds Hrun.
  destruct (adds_trace id rqs s r rs s' Hwf Hr Hadds Hrun)
    as (r' & Hr' & Hk & Hn & _).
  exists r'. auto.
Qed.

(** Witness for X5: two updates of session 1 and one of the unknown session 8. *)
Lemma sequential_updates_are_counted_witness :
  exists r',
    sessionToReservoir
      (put 1 (mkReservoir [1; 99; 3] 3 5)
         (mkReservoirState {[1 := mkReservoir [1; 2; 3] 3 3]} sync.zero
            {[1 := sync.zero]} sync.zero 2)) !! 1 = Some r' /\
    n r' = 3 + 2.
Proof.
  destruct (sequential_updates_are_counted _ 1 (mkReservoir [1; 2; 3] 3 3)
              [Add 1 1 99; Add 3 1 77; Add 0 8 5]
              [Added nil_error; Added nil_error; Added (NotFound 8)] _
              (reachable_wf _ reachable_123)
              ltac:(reflexivity) ltac:(repeat constructor)
              ltac:(vm_compute; reflexivity))
    as (r' & H & Hn & _).
  exists r'. split; [exact H | exact Hn].
Defined.

Lemma put_commute id1 id2 r1 r2 s :
  id1 <> id2 -> put id1 r1 (put id2 r2 s) = put id2 r2 (put id1 r1 s).
Proof.
  intros Hne. unfold put, set_sessionToReservoir. simpl.
  rewrite insert_insert_ne by congruence. reflexivity.
Qed.

(** An update does not look at the reservoir of another session. *)
Lemma update_other_session draw id v s id' r0 r0' :
  wf s -> id' <> id ->
  sessionToReservoir s !! id' = Some r0 ->
  capacity_inv r0' ->
  AtomicUpdateReservoir draw id v (put id' r0' s) =
  match AtomicUpdateReservoir draw id v s with
  | Returns e s' => Returns e (put id' r0' s')
  | Panics => Panics
  | Blocks => Blocks
  end.
Proof.
  intros Hwf Hne Hr0 Hinv.
  pose proof (put_wf _ _ _ _ Hwf Hr0 Hinv) as Hwf'.
  pose proof Hwf as (Hq & Hk & _). pose proof Hwf' as (Hq' & _).
  destruct (sessionToSessionLock s !! id) as [m|] eqn:Hm.
  - assert (is_Some (sessionToReservoir s !! id)) as [r Hr].
    { apply same_keys_lookup; eauto. }
    assert (sessionToReservoir (put id' r0' s) !! id = Some r) as Hr'.
    { rewrite put_lookup. case_decide; congruence. }
    rewrite (update_found draw id v _ m r Hq' Hm Hr').
    rewrite (update_found draw id v _ m r Hq Hm Hr).
    destruct (wrap_int (n r + 1) <=? 0); [reflexivity|].
    destruct (draw mod wrap_int (n r + 1) <? k r).
    + destruct (store_index (data r) (draw mod wrap_int (n r + 1)) v); [|reflexivity].
      rewrite put_commute by congruence. reflexivity.
    + rewrite put_commute by congruence. reflexivity.
  - rewrite !update_not_found by exact Hm. reflexivity.
Qed.

(** X6. Updates of two different sessions commute as far as errors,
    counters and capacities go: served in either order they return the same
    errors, and leave the same keys, locks and identifier counter and, in
    every session, the same [n], the same [k] and data of the same length. *)
Theorem updates_of_distinct_sessions_commute (s : ReservoirState)
    (id1 id2 draw1 draw2 v1 v2 : Z) (e1 e2 : error) (s1 s2 : ReservoirState) :
  wf s ->
  id1 <> id2 ->
  AtomicUpdateReservoir draw1 id1 v1 s = Returns e1 s1 ->
  AtomicUpdateReservoir draw2 id2 v2 s1 = Returns e2 s2 ->
  exists s1' s2',
    AtomicUpdateReservoir draw2 id2 v2 s = Returns e2 s1' /\
    AtomicUpdateReservoir draw1 id1 v1 s1' = Returns e1 s2' /\
    dom (sessionToReservoir s2') = dom (sessionToReservoir s2) /\
    sessionToSessionLock s2' = sessionToSessionLock s2 /\
    nextSessionID s2' = nextSessionID s2 /\
    (forall id r,
       sessionToReservoir s2 !! id = Some r ->
       exists r',
         sessionToReservoir s2' !! id = Some r' /\
         n r' = n r /\ k r' = k r /\ length (data r') = length (data r)).
Proof.
  intros Hwf Hne H1 H2.
  assert (exists s1',
             AtomicUpdateReservoir draw2 id2 v2 s = Returns e2 s1' /\
             AtomicUpdateReservoir draw1 id1 v1 s1' = Returns e1 s2) as (s1' & Ha & Hb).
  { destruct (update_returns _ _ _ _ _ _ Hwf H1)
      as [(-> & -> & Hn1) | (r1 & d1 & -> & Hr1 & Hlt1 & -> & Hd1)].
    - (* the first update finds no session *)
      exists s2. split; [exact H2|].
      pose proof (update_wf _ _ _ _ _ _ Hwf H2) as Hwf2.
      apply not_found_unknown; [exact Hwf2|].
      apply not_present_none.
      destruct (update_returns _ _ _ _ _ _ Hwf H2)
        as [(_ & -> & _) | (r2 & d2 & _ & _ & _ & -> & _)]; [exact Hn1|].
      rewrite put_lookup. case_decide; congruence.
    - set (r1' := mkReservoir d1 (k r1) (n r1 + 1)) in *.
      assert (capacity_inv r1') as Hinv1.
      { destruct Hwf as (_ & _ & Hi). destruct (Hi _ _ Hr1) as (Hlen & Hkn & Hmax).
        unfold capacity_inv, r1'. simpl.
        destruct Hd1 as [(_ & _ & ->) | (_ & ->)]; unfold len in *;
          rewrite ?length_insert; lia. }
      rewrite (update_other_session draw2 id2 v2 s id1 r1 r1' Hwf Hne Hr1 Hinv1) in H2.
      destruct (AtomicUpdateReservoir draw2 id2 v2 s) as [e s1'| |] eqn:H2';
        try discriminate.
      injection H2 as <- <-. exists s1'. split; [reflexivity|].
      pose proof (update_wf _ _ _ _ _ _ Hwf H2') as Hwf1'.
      destruct (update_returns _ _ _ _ _ _ Hwf H2')
        as [(_ & -> & _) | (r2 & d2 & _ & Hr2 & Hlt2 & -> & Hd2)]; [exact H1|].
      set (r2' := mkReservoir d2 (k r2) (n r2 + 1)) in *.
      assert (capacity_inv r2') as Hinv2.
      { destruct Hwf as (_ & _ & Hi). destruct (Hi _ _ Hr2) as (Hlen & Hkn & Hmax).
        unfold capacity_inv, r2'. simpl.
        destruct Hd2 as [(_ & _ & ->) | (_ & ->)]; unfold len in *;
          rewrite ?length_insert; lia. }
      rewrite (update_other_session draw1 id1 v1 s id2 r2 r2' Hwf
                 ltac:(congruence) Hr2 Hinv2), H1.
      rewrite put_commute by congruence. reflexivity. }
  exists s1', s2. split; [exact Ha|]. split; [exact Hb|].
  split; [reflexivity|]. split; [reflexivity|]. split; [reflexivity|].
  intros id r Hr. exists r. auto.
Qed.

Lemma reachable_two_sessions :
  reachable (mkReservoirState
               (<[2 := mkReservoir [4; 5] 2 2]> {[1 := mkReservoir [1; 2; 3] 3 3]})
               sync.zero (<[2 := sync.zero]> {[1 := sync.zero]}) sync.zero 3).
Proof.
  exists [Begin [1; 2; 3]; Begin [4; 5]], [Began 1; Began 2]. split.
  - repeat constructor; vm_compute; discriminate.
  - vm_compute. reflexivity.
Qed.

(** Witness for X6: sessions 1 and 2 are both updated, each at an index of
    its reservoir. *)
Lemma updates_of_distinct_sessions_commute_witness :
  exists s1' s2',
    AtomicUpdateReservoir 0 2 77
      (mkReservoirState
         (<[2 := mkReservoir [4; 5] 2 2]> {[1 := mkReservoir [1; 2; 3] 3 3]})
         sync.zero (<[2 := sync.zero]> {[1 := sync.zero]}) sync.zero 3)
    = Returns nil_error s1' /\
    AtomicUpdateReservoir 1 1 99 s1' = Returns nil_error s2' /\
    nextSessionID s2' = 3.
Proof.
  destruct (updates_of_distinct_sessions_commute _ 1 2 1 0 99 77 nil_error nil_error
              _ _ (reachable_wf _ reachable_two_sessions) ltac:(discriminate)
              ltac:(vm_compute; reflexivity) ltac:(vm_compute; reflexivity))
    as (s1' & s2' & Ha & Hb & _ & _ & Hc & _).
  exists s1', s2'. split; [exact Ha|]. split; [exact Hb | exact Hc].
Defined.

(** ** Further properties of the handlers *)

(** X7. The add handler, for a request that decodes: an unknown session
    is answered [404] with the text of the error and the store is left as
    it was; a session whose [n] is below the largest [int] is answered
    [200] with an empty body, and its [n] has grown by one; at the largest
    [int] the job panics. *)
Theorem add_handler_status (s : ReservoirState) (req : server.requestData) (draw : Z) :
  wf s ->
  (~ present s (server.SessionID req) ->
   server.addHandler draw false req http.fresh s
   = Returns (http.mkResponseWriter (Some http.StatusNotFound)
                [http.ErrorText (NotFound (server.SessionID req))]) s) /\
  (forall r,
     sessionToReservoir s !! server.SessionID req = Some r ->
     n r < max_int ->
     exists s' r',
       server.addHandler draw false req http.fresh s
       = Returns (http.mkResponseWriter (Some http.StatusOK) []) s' /\
       sessionToReservoir s' !! server.SessionID req = Some r' /\
       n r' = n r + 1) /\
  (forall r,
     sessionToReservoir s !! server.SessionID req = Some r ->
     n r = max_int ->
     server.addHandler draw false req http.fresh s = Panics).
Proof.
  intros Hwf. split; [|split].
  - intros Hnp. destruct (not_found_unknown s _ Hwf Hnp) as [Hu _].
    unfold server.addHandler, server.JobAddInteger_Process, api.AddInteger,
      mbind, M_bind, bind.
    rewrite Hu. reflexivity.
  - intros r Hr Hlt.
    destruct (update_below_top draw (server.SessionID req) (server.IntegerToAdd req)
                s r Hwf Hr Hlt) as (_ & _ & Hrun).
    do 2 eexists. split; [|split].
    + unfold server.addHandler, server.JobAddInteger_Process, api.AddInteger,
        mbind, M_bind, bind.
      rewrite Hrun. reflexivity.
    + rewrite put_lookup. case_decide; [reflexivity | congruence].
    + reflexivity.
  - intros r Hr Htop.
    unfold server.addHandler, server.JobAddInteger_Process, api.AddInteger,
      mbind, M_bind, bind.
    rewrite (update_at_top draw _ _ s r Hwf Hr Htop). reflexivity.
Qed.

(** Witness for X7: an add request for session 1 of the scenario. *)
Lemma add_handler_status_witness :
  exists s' r',
    server.addHandler 1 false (server.mkRequestData [] 1 99) http.fresh
      (mkReservoirState {[1 := mkReservoir [1; 2; 3] 3 3]} sync.zero
         {[1 := sync.zero]} sync.zero 2)
    = Returns (http.mkResponseWriter (Some 200) []) s' /\
    sessionToReservoir s' !! 1 = Some r' /\
    n r' = 3 + 1.
Proof.
  exact (proj1 (proj2 (add_handler_status _ (server.mkRequestData [] 1 99) 1
                         (reachable_wf _ reachable_123)))
           (mkReservoir [1; 2; 3] 3 3) ltac:(reflexivity) ltac:(reflexivity)).
Defined.

(** X8. The end handler, for a request that is read and decodes: an
    unknown session is answered [404] with the text of the error and the
    store is left as it was; a known session is answered [200] with the JSON
    of its current data, and is gone afterwards. *)
Theorem end_handler_status (s : ReservoirState) (req : server.requestData) :
  wf s ->
  (~ present s (server.SessionID req) ->
   server.endHandler false false req http.fresh s
   = Returns (http.mkResponseWriter (Some http.StatusNotFound)
                [http.ErrorText (NotFound (server.SessionID req))]) s) /\
  (forall r,
     sessionToReservoir s !! server.SessionID req = Some r ->
     exists s',
       server.endHandler false false req http.fresh s
       = Returns (http.mkResponseWriter (Some http.StatusOK)
                    [http.JsonSample (data r)]) s' /\
       ~ present s' (server.SessionID req)).
Proof.
  intros Hwf. split.
  - intros Hnp. destruct (not_found_unknown s _ Hwf Hnp) as [_ Hu].
    unfold server.endHandler, server.JobEndSession_Process, api.EndSession,
      mbind, M_bind, bind.
    rewrite Hu. reflexivity.
  - intros r Hr. pose proof Hwf as (Hq & Hk & _).
    assert (is_Some (sessionToSessionLock s !! server.SessionID req)) as [m Hm].
    { apply same_keys_lookup; eauto. }
    eexists. split.
    + unfold server.endHandler, server.JobEndSession_Process, api.EndSession,
        mbind, M_bind, bind.
      rewrite (end_found _ _ _ _ Hq Hm Hr). reflexivity.
    + unfold present. simpl. rewrite lookup_delete_eq. intros [? [=]].
Qed.

(** Witness for X8: an end request for session 7 at start-up. *)
Lemma end_handler_status_witness :
  server.endHandler false false (server.mkRequestData [] 7 0) http.fresh
    NewReservoirState
  = Returns (http.mkResponseWriter (Some 404) [http.ErrorText (NotFound 7)])
      NewReservoirState.
Proof.
  refine (proj1 (end_handler_status NewReservoirState (server.mkRequestData [] 7 0)
                   wf_initial) _).
  intros [r Hr]. simpl in Hr. rewrite lookup_empty in Hr. discriminate.
Defined.

(** X9. A request that does not decode is answered [400] (or [500] when
    the body of an end request could not be read), and its job runs all the
    same, since no error branch of a handler returns: the begin handler
    creates a session from whatever was decoded, the add and end handlers
    leave the store that the update or the end leaves. *)
Theorem undecodable_request_is_still_served (s : ReservoirState)
    (req : server.requestData) (draw : Z) :
  wf s ->
  (exists w s',
     server.beginHandler true req http.fresh s = Returns w s' /\
     http.status w = Some http.StatusBadRequest /\
     AtomicCreateReservoir (server.Reservoir_ req) s = Returns (nextSessionID s) s' /\
     present s' (nextSessionID s)) /\
  (forall e s',
     AtomicUpdateReservoir draw (server.SessionID req) (server.IntegerToAdd req) s
     = Returns e s' ->
     exists w,
       server.addHandler draw true req http.fresh s = Returns w s' /\
       http.status w = Some http.StatusBadRequest) /\
  (forall read_failed res s',
     AtomicEndReservoirSession (server.SessionID req) s = Returns res s' ->
     exists w,
       server.endHandler read_failed true req http.fresh s = Returns w s' /\
       http.status w = Some (if read_failed then http.StatusInternalServerError
                             else http.StatusBadRequest)).
Proof.
  intros Hwf. pose proof Hwf as ((H1 & H2 & _) & _).
  split; [|split].
  - pose proof (create_eq (server.Reservoir_ req) s H1 H2) as Hc.
    unfold server.beginHandler, server.JobBeginSession_Process, api.BeginSession,
      mbind, M_bind, bind.
    rewrite Hc. do 2 eexists. split; [reflexivity|].
    split; [destruct (len (server.Reservoir_ req) =? _); reflexivity|].
    split; [reflexivity|].
    unfold present. simpl. rewrite lookup_insert_eq. eauto.
  - intros e s' Hrun.
    unfold server.addHandler, server.JobAddInteger_Process, api.AddInteger,
      mbind, M_bind, bind.
    rewrite Hrun. destruct e; eexists; split; reflexivity.
  - intros read_failed [sample e] s' Hrun.
    unfold server.endHandler, server.JobEndSession_Process, api.EndSession,
      mbind, M_bind, bind.
    rewrite Hrun. destruct e, read_failed; eexists; split; reflexivity.
Qed.

(** Witness for X9: an undecodable begin request at start-up. *)
Lemma undecodable_request_is_still_served_witness :
  exists w s',
    server.beginHandler true (server.mkRequestData [] 0 0) http.fresh NewReservoirState
    = Returns w s' /\
    http.status w = Some http.StatusBadRequest /\
    AtomicCreateReservoir [] NewReservoirState = Returns 1 s' /\
    present s' 1.
Proof.
  exact (proj1 (undecodable_request_is_still_served NewReservoirState
                  (server.mkRequestData [] 0 0) 0 wf_initial)).
Defined.

(** X10. Round trip through the handlers: a begin request with a
    sequence that is not empty is answered [200] with the new identifier,
    and an end request for this identifier is then answered [200] with the
    same sequence; the store is back to what it was, but for the counter. *)
Theorem handler_round_trip (s : ReservoirState) (initial : list Z) (sid add : Z) :
  wf s ->
  ~ present s (nextSessionID s) ->
  initial <> [] ->
  exists s1,
    server.beginHandler false (server.mkRequestData initial sid add) http.fresh s
    = Returns (http.mkResponseWriter (Some http.StatusOK)
                 [http.JsonSessionID (nextSessionID s)]) s1 /\
    server.endHandler false false
      (server.mkRequestData [] (nextSessionID s) 0) http.fresh s1
    = Returns (http.mkResponseWriter (Some http.StatusOK) [http.JsonSample initial])
        (set_nextSessionID (wrap_uint64 (nextSessionID s + 1)) s).
Proof.
  intros Hwf Hnp Hne. pose proof Hwf as ((H1 & H2 & Hz) & Hk & Hi).
  apply not_present_none in Hnp.
  pose proof (proj2 (same_keys_none s _ Hk) Hnp) as Hnl.
  pose proof (create_eq initial s H1 H2) as Hc.
  set (s1 := mkReservoirState _ _ _ _ _) in Hc.
  assert (quiescent s1) as Hq1.
  { repeat split. intros id m. simpl. rewrite lookup_insert.
    case_decide; [congruence | apply Hz]. }
  pose proof (end_found (nextSessionID s) s1 sync.zero
                (mkReservoir initial (len initial) (len initial)) Hq1
                ltac:(subst s1; simpl; apply lookup_insert_eq)
                ltac:(subst s1; simpl; apply lookup_insert_eq)) as He.
  assert (set_sessionToSessionLock (fun m => delete (nextSessionID s) m)
            (set_sessionToReservoir (fun m => delete (nextSessionID s) m) s1)
          = set_nextSessionID (wrap_uint64 (nextSessionID s + 1)) s) as Hback.
  { subst s1. unfold set_sessionToSessionLock, set_sessionToReservoir, set_nextSessionID.
    simpl. rewrite !delete_insert_id by assumption.
    clear -H1 H2. destruct s; simpl in *; subst; reflexivity. }
  rewrite Hback in He. simpl data in He.
  exists s1. split.
  - unfold server.beginHandler, server.JobBeginSession_Process, api.BeginSession,
      mbind, M_bind, bind. cbn [server.Reservoir_].
    destruct (len initial =? server.MISSING_INPUT_RESERVOIR) eqn:E.
    { apply Z.eqb_eq in E. destruct initial; [congruence|].
      unfold len, server.MISSING_INPUT_RESERVOIR in E. simpl in E. lia. }
    rewrite Hc. reflexivity.
  - unfold server.endHandler, server.JobEndSession_Process, api.EndSession,
      mbind, M_bind, bind. cbn [server.SessionID].
    rewrite He. reflexivity.
Qed.

(** Witness for X10: [[4, 5]] at start-up. *)
Lemma handler_round_trip_witness :
  exists s1,
    server.beginHandler false (server.mkRequestData [4; 5] 0 0) http.fresh
      NewReservoirState
    = Returns (http.mkResponseWriter (Some 200) [http.JsonSessionID 1]) s1 /\
    server.endHandler false false (server.mkRequestData [] 1 0) http.fresh s1
    = Returns (http.mkResponseWriter (Some 200) [http.JsonSample [4; 5]])
        (set_nextSessionID 2 NewReservoirState).
Proof.
  apply (handler_round_trip NewReservoirState [4; 5] 0 0 wf_initial).
  - intros [r Hr]. simpl in Hr. rewrite lookup_empty in Hr. discriminate.
  - discriminate.
Defined.

(** ** Further properties of concurrent creations *)

Lemma move_inv {T} (step : T -> ReservoirState -> option (T * ReservoirState))
    i pool s pool' s' :
  move step i (pool, s) = Some (pool', s') ->
  exists t t', pool !! i = Some t /\ step t s = Some (t', s') /\ pool' = <[i := t']> pool.
Proof.
  unfold move. simpl. destruct (pool !! i) as [t|] eqn:Ht; [|discriminate]. simpl.
  destruct (step t s) as [[t' s1]|] eqn:Hs; [|discriminate]. simpl.
  intros [= <- <-]. eauto.
Qed.

Lemma total_insert {T} (f : T -> Z) pool : forall i t t',
  pool !! i = Some t ->
  total f (<[i := t']> pool) = total f pool - f t + f t'.
Proof.
  induction pool as [|t0 pool IH]; intros i t t' Hi; [discriminate|].
  destruct i as [|i]; simpl in *.
  - injection Hi as ->. lia.
  - rewrite (IH i t t' Hi). lia.
Qed.

(** A property of configurations that every step keeps holds after every
    schedule. *)
Lemma run_invariant {T} (step : T -> ReservoirState -> option (T * ReservoirState))
    (P : list T * ReservoirState -> Prop) :
  (forall i cfg cfg', P cfg -> move step i cfg = Some cfg' -> P cfg') ->
  forall schedule cfg cfg', P cfg -> run step schedule cfg = Some cfg' -> P cfg'.
Proof.
  intros Hstep. induction schedule as [|i schedule IH]; intros cfg cfg' HP Hrun.
  - injection Hrun as <-. exact HP.
  - simpl in Hrun. destruct (move step i cfg) as [cfg1|] eqn:Hm; [|discriminate].
    simpl in Hrun. eapply IH; [|exact Hrun]. eapply Hstep; eauto.
Qed.

Lemma create_step_counter t s t' s' :
  create_step t s = Some (t', s') ->
  nextSessionID s' = (if decide (has_added t' = has_added t)
                      then nextSessionID s
                      else wrap_uint64 (nextSessionID s + 1)) /\
  has_added t <= has_added t'.
Proof.
  destruct t; simpl; intros H;
    repeat match type of H with
           | context [sync.Lock ?m] => destruct (sync.Lock m); simpl in H
           | context [sync.Unlock ?m] => destruct (sync.Unlock m); simpl in H
           end;
    try discriminate; injection H as <- <-; simpl; split; reflexivity || lia.
Qed.

Lemma counter_invariant c0 T0 schedule cfg cfg' :
  nextSessionID (snd cfg) = wrap_uint64 (c0 + total has_added (fst cfg) - T0) ->
  run create_step schedule cfg = Some cfg' ->
  nextSessionID (snd cfg') = wrap_uint64 (c0 + total has_added (fst cfg') - T0).
Proof.
  apply (run_invariant create_step
           (fun cfg => nextSessionID (snd cfg)
                       = wrap_uint64 (c0 + total has_added (fst cfg) - T0))).
  clear. intros i [pool s] [pool' s'] HP Hm. simpl in *.
  apply move_inv in Hm as (t & t' & Ht & Hs & ->).
  rewrite (total_insert _ _ _ _ _ Ht).
  destruct (create_step_counter _ _ _ _ Hs) as [Hc Hle]. rewrite Hc.
  case_decide as E.
  - rewrite HP. f_equal. lia.
  - rewrite HP, wrap_uint64_add. f_equal.
    assert (has_added t = 0 /\ has_added t' = 1) as [-> ->]; [|lia].
    destruct t, t'; simpl in *; lia.
Qed.

Lemma total_returned pool :
  Forall (fun t => exists id, t = C_returned id) pool ->
  total has_added pool = len pool.
Proof.
  induction 1 as [|t pool [id ->] _ IH]; [reflexivity|].
  unfold len in *. simpl total. simpl length. simpl has_added. lia.
Qed.

Lemma run_length {T} (step : T -> ReservoirState -> option (T * ReservoirState))
    schedule : forall cfg cfg',
  run step schedule cfg = Some cfg' -> length (fst cfg') = length (fst cfg).
Proof.
  induction schedule as [|i schedule IH]; intros cfg cfg' Hrun.
  - injection Hrun as <-. reflexivity.
  - simpl in Hrun. destruct (move step i cfg) as [cfg1|] eqn:Hm; [|discriminate].
    simpl in Hrun. rewrite (IH _ _ Hrun). destruct cfg, cfg1.
    apply move_inv in Hm as (t & t' & _ & _ & ->). simpl. apply length_insert.
Qed.

Lemma total_loads reservoirs : total has_added (List.map C_load reservoirs) = 0.
Proof. induction reservoirs as [|l ls IH]; simpl; [reflexivity | exact IH]. Qed.

(** X11. Under any interleaving of goroutines that create sessions, the
    identifier counter is the start value plus the number of goroutines that
    have run their [atomic.AddUint64], modulo 2^64: no increment is lost.
    When all have returned, it has moved by the number of creations. *)
Theorem concurrent_creations_count (reservoirs : list (list Z)) (schedule : list nat)
    (s0 s : ReservoirState) (pool : list creator) :
  0 <= nextSessionID s0 <= max_uint64 ->
  run create_step schedule (List.map C_load reservoirs, s0) = Some (pool, s) ->
  nextSessionID s = wrap_uint64 (nextSessionID s0 + total has_added pool) /\
  (Forall (fun t => exists id, t = C_returned id) pool ->
   nextSessionID s = wrap_uint64 (nextSessionID s0 + len reservoirs)).
Proof.
  intros Hc0 Hrun.
  assert (nextSessionID s0
          = wrap_uint64 (nextSessionID s0
                         + total has_added (List.map C_load reservoirs) - 0)) as H0.
  { rewrite total_loads, Z.add_0_r, Z.sub_0_r. symmetry.
    apply wrap_uint64_small. exact Hc0. }
  pose proof (counter_invariant (nextSessionID s0) 0 schedule
                (List.map C_load reservoirs, s0) (pool, s) H0 Hrun) as H.
  cbn [fst snd] in H. rewrite Z.sub_0_r in H. split; [exact H|].
  intros Hall. rewrite H, (total_returned _ Hall). f_equal. f_equal.
  pose proof (run_length _ _ _ _ Hrun) as Hl. simpl in Hl.
  unfold len. rewrite Hl, length_map. reflexivity.
Qed.

(** Witness for X11: the two creations that get the same identifier. *)
Lemma concurrent_creations_count_witness :
  nextSessionID (mkReservoirState {[1 := mkReservoir [30] 1 1]} sync.zero
                   {[1 := sync.zero]} sync.zero 3)
  = wrap_uint64 (nextSessionID NewReservoirState + len [[10; 20]; [30]]).
Proof.
  refine (proj2 (concurrent_creations_count [[10; 20]; [30]]
                   [0; 1; 0; 1; 0; 0; 0; 0; 0; 0; 1; 1; 1; 1; 1; 1]%nat
                   NewReservoirState _ [C_returned 1; C_returned 1] _ _) _).
  - vm_compute. split; discriminate.
  - vm_compute. reflexivity.
  - repeat constructor; eexists; reflexivity.
Defined.

Lemma total_ge {T} (f : T -> Z) pool : forall i t,
  (forall t, 0 <= f t) -> pool !! i = Some t -> f t <= total f pool /\ 0 <= total f pool.
Proof.
  intros i t Hf. unfold total.
  assert (forall l, 0 <= fold_right (fun t acc => f t + acc) 0 l) as H0.
  { induction l as [|a l IHl]; simpl; [lia|]. specialize (Hf a). lia. }
  revert i. induction pool as [|t0 pool IH]; intros i Hi; [discriminate|].
  specialize (H0 pool). pose proof (Hf t0) as Ht0. destruct i as [|i]; simpl in *.
  - injection Hi as ->. lia.
  - destruct (IH i Hi). lia.
Qed.

Lemma holds_map_lock_nonneg t : 0 <= holds_map_lock t.
Proof. destruct t; simpl; lia. Qed.

Lemma holds_locks_lock_nonneg t : 0 <= holds_locks_lock t.
Proof. destruct t; simpl; lia. Qed.

Lemma locks_agree_step i cfg cfg' :
  locks_agree cfg -> move create_step i cfg = Some cfg' -> locks_agree cfg'.
Proof.
  destruct cfg as [pool s], cfg' as [pool' s'].
  intros (Ha & Hma & Hb & Hmb & Hnc) Hm.
  apply move_inv in Hm as (t & t' & Ht & Hs & ->).
  unfold locks_agree.
  rewrite !(total_insert _ _ _ _ _ Ht).
  destruct (total_ge holds_map_lock pool i t holds_map_lock_nonneg Ht) as [Hta _].
  destruct (total_ge holds_locks_lock pool i t holds_locks_lock_nonneg Ht) as [Htb _].
  set (A := total holds_map_lock pool) in *.
  set (B := total holds_locks_lock pool) in *.
  assert (forall x, x <> C_crashed -> Forall (fun t => t <> C_crashed) (<[i := x]> pool))
    as Hins by (intros x Hx; apply Forall_insert; assumption).
  destruct s as [rs m1 ls m2 c]. simpl in Hma, Hmb. subst m1 m2.
  destruct t; simpl in Hs, Hta, Htb |- *.
  all: try (injection Hs as <- <-; simpl;
            repeat split; try lia; try (apply Hins; discriminate);
            f_equal; f_equal; lia).
  - (* Lock of the reservoir map *)
    destruct (A =? 1) eqn:E; simpl in Hs; [discriminate|]. apply Z.eqb_neq in E.
    injection Hs as <- <-. simpl.
    assert (A = 0) as HA by lia. rewrite HA.
    repeat split; try lia; try (apply Hins; discriminate); f_equal; f_equal; lia.
  - (* Lock of the lock map *)
    destruct (B =? 1) eqn:E; simpl in Hs; [discriminate|]. apply Z.eqb_neq in E.
    injection Hs as <- <-. simpl.
    assert (B = 0) as HB by lia. rewrite HB.
    repeat split; try lia; try (apply Hins; discriminate); f_equal; f_equal; lia.
  - (* Unlock of the lock map *)
    assert (B = 1) as HB by lia. rewrite HB in *. simpl in Hs.
    injection Hs as <- <-. simpl.
    repeat split; try lia; try (apply Hins; discriminate); f_equal; f_equal; lia.
  - (* Unlock of the reservoir map *)
    assert (A = 1) as HA by lia. rewrite HA in *. simpl in Hs.
    injection Hs as <- <-. simpl.
    repeat split; try lia; try (apply Hins; discriminate); f_equal; f_equal; lia.
  - discriminate.
  - discriminate.
Qed.

(** X12. The two structural mutexes do exclude: under any interleaving of
    goroutines that create sessions, started with both mutexes free, at most
    one goroutine is between [Lock] and [Unlock] of [sessionToReservoirLock],
    at most one inside [sessionToSessionLockLock], each mutex is held exactly
    when some goroutine is inside, and no [Unlock] ever aborts. *)
Theorem structural_locks_exclude (reservoirs : list (list Z)) (schedule : list nat)
    (s0 s : ReservoirState) (pool : list creator) :
  sessionToReservoirLock s0 = sync.zero ->
  sessionToSessionLockLock s0 = sync.zero ->
  run create_step schedule (List.map C_load reservoirs, s0) = Some (pool, s) ->
  0 <= total holds_map_lock pool <= 1 /\
  sessionToReservoirLock s = sync.mkRWMutex (total holds_map_lock pool =? 1) 0 /\
  0 <= total holds_locks_lock pool <= 1 /\
  sessionToSessionLockLock s = sync.mkRWMutex (total holds_locks_lock pool =? 1) 0 /\
  Forall (fun t => t <> C_crashed) pool.
Proof.
  intros H1 H2 Hrun.
  apply (run_invariant create_step locks_agree locks_agree_step schedule
           (List.map C_load reservoirs, s0) (pool, s)); [|exact Hrun].
  unfold locks_agree.
  assert (total holds_map_lock (List.map C_load reservoirs) = 0) as ->.
  { clear. induction reservoirs as [|l ls IH]; [reflexivity | exact IH]. }
  assert (total holds_locks_lock (List.map C_load reservoirs) = 0) as ->.
  { clear. induction reservoirs as [|l ls IH]; [reflexivity | exact IH]. }
  rewrite H1, H2.
  repeat split; try lia.
  apply Forall_forall. intros t Hin. apply list_elem_of_In, in_map_iff in Hin.
  destruct Hin as (l & <- & _). discriminate.
Qed.

(** Witness for X12: the two creations of the duplicate identifier, stopped
    when the first goroutine holds both mutexes. *)
Lemma structural_locks_exclude_witness :
  total holds_map_lock [C_put_lock 1; C_lock_map (mkReservoir [30] 1 1) 1] <= 1.
Proof.
  refine (proj2 (proj1 (structural_locks_exclude [[10; 20]; [30]]
                          [0; 1; 0; 1; 0; 0; 0]%nat NewReservoirState _
                          [C_put_lock 1; C_lock_map (mkReservoir [30] 1 1) 1]
                          eq_refl eq_refl _))).
  vm_compute. reflexivity.
Defined.
